(** * HianimeDownloader batch runner ([main2.py]): model and properties

    A shallow embedding of the batch engine of [main2.py]: the input
    collector ([Main.build_jobs]), the per-job materialisation and the job
    loop ([Main.__init__]), the router with its interactive session
    ([Main.get_extractor]) and the process entry point ([__main__]).

    Modelling conventions.
    - A Python [str] is a [string]: a sequence of code points below 256.
      The [str] methods used by the program ([lower], [startswith], [strip],
      [splitlines], [in]) are defined below as CPython defines them on
      those code points.
    - The program is effectful. A computation is a function from a [World]
      (the [self.args] object, the pending lines of standard input, the
      number of clock readings taken, and the trace of observable events)
      to a result and a new world. A result is a value, a raised Python
      exception, or [OutOfFuel] for the recursion bound of the router.
    - The extraction strategies, the file system, the spelling that
      [pathlib] gives a path, the clock and the colour codes of
      [colorama] are outside the program; they are the fields of [Env].
    - [time.time()] readings are taken in whole seconds. *)

From Stdlib Require Import ZArith Ascii String DecimalString DecimalNat.
From stdpp Require Import base decidable list gmap strings.

Local Open Scope list_scope.

(** ** Python [str] operations *)

Module PyStr.

Definition ord (c : ascii) : nat := nat_of_ascii c.

(** [str.isspace] on one code point (CPython's [Py_UNICODE_ISSPACE]):
    0x09-0x0D, 0x1C-0x1F, 0x20, 0x85, 0xA0. *)
Definition isspace (c : ascii) : bool :=
  let n := ord c in
  ((9 <=? n) && (n <=? 13)) || ((28 <=? n) && (n <=? 32))
  || (n =? 133) || (n =? 160).

(** Line boundaries of [str.splitlines] ([Py_UNICODE_ISLINEBREAK]):
    0x0A-0x0D, 0x1C-0x1E, 0x85. *)
Definition islinebreak (c : ascii) : bool :=
  let n := ord c in
  ((10 <=? n) && (n <=? 13)) || ((28 <=? n) && (n <=? 30)) || (n =? 133).

(** [str.lower] on one code point: A-Z, and the Latin-1 capitals
    0xC0-0xDE except the multiplication sign 0xD7. *)
Definition lower_char (c : ascii) : ascii :=
  let n := ord c in
  if ((65 <=? n) && (n <=? 90))
     || ((192 <=? n) && (n <=? 222) && negb (n =? 215))
  then ascii_of_nat (n + 32) else c.

Fixpoint lower (s : string) : string :=
  match s with
  | EmptyString => EmptyString
  | String c s' => String (lower_char c) (lower s')
  end.

(** [s.startswith(p)] *)
Fixpoint startswith (p s : string) : bool :=
  match p, s with
  | EmptyString, _ => true
  | String a p', String b s' => if decide (a = b) then startswith p' s' else false
  | String _ _, EmptyString => false
  end.

(** [needle in hay] *)
Fixpoint contains (needle hay : string) : bool :=
  startswith needle hay ||
  match hay with
  | EmptyString => false
  | String _ hay' => contains needle hay'
  end.

Fixpoint lstrip (s : string) : string :=
  match s with
  | EmptyString => EmptyString
  | String c s' => if isspace c then lstrip s' else s
  end.

Fixpoint rstrip (s : string) : string :=
  match s with
  | EmptyString => EmptyString
  | String c s' =>
      match rstrip s' with
      | EmptyString => if isspace c then EmptyString else String c EmptyString
      | r => String c r
      end
  end.

(** [s.strip()] *)
Definition strip (s : string) : string := rstrip (lstrip s).

(** [s.splitlines()]: [cur] is the line being read. A line boundary ends
    it; carriage return followed by line feed is one boundary; a last
    line with no boundary after it is kept when it is not empty. *)
Fixpoint splitlines_go (cur s : string) : list string :=
  match s with
  | EmptyString =>
      match cur with EmptyString => [] | _ => [cur] end
  | String c s' =>
      if islinebreak c then
        cur :: match s' with
               | String d s'' =>
                   if (ord c =? 13) && (ord d =? 10)
                   then splitlines_go EmptyString s''
                   else splitlines_go EmptyString s'
               | EmptyString => splitlines_go EmptyString s'
               end
      else splitlines_go (cur +:+ String c EmptyString) s'
  end.

Definition splitlines (s : string) : list string := splitlines_go EmptyString s.

(** Truth value of a [str]: non-empty. *)
Definition truthy (s : string) : bool :=
  match s with EmptyString => false | _ => true end.

(** [str(n)] for an [int]. *)
Definition str_of_Z (z : Z) : string := NilZero.string_of_int (Z.to_int z).
Definition str_of_nat (n : nat) : string := NilZero.string_of_uint (Nat.to_uint n).

Fixpoint zeros (n : nat) : string :=
  match n with O => EmptyString | S n' => String "0" (zeros n') end.

Definition zfill (width : nat) (digits : string) : string :=
  zeros (width - String.length digits) +:+ digits.

(** [f"{n:0{width}d}"] for an [int] that is not negative. *)
Definition format_0d_nat (width n : nat) : string := zfill width (str_of_nat n).

(** [f"{z:0{width}d}"]: the sign, then zeros, then the digits, at least
    [width] characters in all. *)
Definition format_0d (width : nat) (z : Z) : string :=
  if (z <? 0)%Z
  then String "-" (zfill (width - 1) (NilZero.string_of_uint (N.to_uint (Z.abs_N z))))
  else zfill width (NilZero.string_of_uint (N.to_uint (Z.abs_N z))).

End PyStr.

(** ** Data model *)

(** The [argparse.Namespace] of [parse_args]. The program stores two kinds
    of value in the attribute [link]: the list of the repeated [-l] option
    in [self.args], and a single link or [None] in a per-job copy; [L] is
    the type of that attribute. All other attributes are shared. *)
Record Namespace (L : Type) := mkNamespace {
  no_subtitles : bool;
  output_dir : string;
  filename : string;
  aria : bool;
  link : L;
  links_file : option string;
  continue_on_error : bool;
  server : option string
}.
Arguments mkNamespace {L}.
Arguments no_subtitles {L}.
Arguments output_dir {L}.
Arguments filename {L}.
Arguments aria {L}.
Arguments link {L}.
Arguments links_file {L}.
Arguments continue_on_error {L}.
Arguments server {L}.

(** [self.args] *)
Abbreviation Args := (Namespace (list string)).
(** [job_args] *)
Abbreviation JobArgs := (Namespace (option string)).

(** [ns.link = l]: every other attribute is kept. *)
Definition set_link {L L' : Type} (l : L') (ns : Namespace L) : Namespace L' :=
  {| no_subtitles := no_subtitles ns; output_dir := output_dir ns;
     filename := filename ns; aria := aria ns; link := l;
     links_file := links_file ns; continue_on_error := continue_on_error ns;
     server := server ns |}.

(** [ns.filename = f] *)
Definition set_filename {L : Type} (f : string) (ns : Namespace L) : Namespace L :=
  {| no_subtitles := no_subtitles ns; output_dir := output_dir ns;
     filename := f; aria := aria ns; link := link ns;
     links_file := links_file ns; continue_on_error := continue_on_error ns;
     server := server ns |}.

(** The extraction strategies, as constructed by the router. [name] is the
    keyword argument of [HianimeExtractor], absent in one of its calls. *)
Inductive Extractor :=
| GeneralExtractor (args : JobArgs)
| HianimeExtractor (args : JobArgs) (name : option string)
| InstagramExtractor (args : JobArgs).

(** Python exceptions the program can meet; all are subclasses of
    [Exception]. [RunError] is an error raised by a strategy's [run()]. *)
Inductive exn :=
| FileNotFoundError (msg : string)
| EOFError
| RunError (msg : string).

(** [str(e)] *)
Definition exn_str (e : exn) : string :=
  match e with
  | FileNotFoundError msg => msg
  | EOFError => "EOF when reading a line"
  | RunError msg => msg
  end.

Inductive Event :=
| EMkdir (path : string)     (* Path(...).mkdir(parents=True, exist_ok=True) *)
| EPrint (text : string)     (* print(text) *)
| EClear                     (* os.system("cls" / "clear") *)
| EPrompt (text : string)    (* the prompt written by input(text) *)
| ERun (e : Extractor).      (* extractor.run() is entered *)

Record World := mkWorld {
  self_args : Args;
  stdin : list string;
  ticks : nat;
  trace : list Event
}.

Inductive Res (A : Type) :=
| Ok (a : A)
| Raise (e : exn)
| OutOfFuel.
Arguments Ok {A}.
Arguments Raise {A}.
Arguments OutOfFuel {A}.

Definition M (A : Type) : Type := World -> Res A * World.

Definition ret {A} (a : A) : M A := fun w => (Ok a, w).

Definition raise {A} (e : exn) : M A := fun w => (Raise e, w).

Definition bind {A B} (m : M A) (k : A -> M B) : M B :=
  fun w =>
    match m w with
    | (Ok a, w') => k a w'
    | (Raise e, w') => (Raise e, w')
    | (OutOfFuel, w') => (OutOfFuel, w')
    end.

Notation "x <~ m ;; k" := (bind m (fun x => k))
  (at level 100, m at next level, right associativity).
Notation "m ;;; k" := (bind m (fun _ => k))
  (at level 100, right associativity).

(** [try: body  except Exception as e: handler(e)  finally: final].
    The [finally] block runs after the body or the handler, also when the
    handler raises. *)
Definition try_except_finally {A} (body : M A) (handler : exn -> M A) (final : M unit) : M A :=
  fun w =>
    let '(r, w1) :=
      match body w with
      | (Raise e, w') => handler e w'
      | other => other
      end in
    match r with
    | OutOfFuel => (OutOfFuel, w1)
    | _ =>
        match final w1 with
        | (Ok _, w2) => (r, w2)
        | (Raise e, w2) => (Raise e, w2)
        | (OutOfFuel, w2) => (OutOfFuel, w2)
        end
    end.

Definition emit (e : Event) : M unit :=
  fun w => (Ok tt, {| self_args := self_args w; stdin := stdin w;
                      ticks := ticks w; trace := trace w ++ [e] |}).

Definition print (text : string) : M unit := emit (EPrint text).

Definition get_self_args : M Args := fun w => (Ok (self_args w), w).

Definition put_self_args (a : Args) : M unit :=
  fun w => (Ok tt, {| self_args := a; stdin := stdin w;
                      ticks := ticks w; trace := trace w |}).

(** The colour codes of [colorama.Fore] that the program prints. *)
Record Colours := mkColours {
  RED : string;
  RESET : string;
  LIGHTCYAN_EX : string;
  LIGHTGREEN_EX : string;
  LIGHTYELLOW_EX : string
}.

(** What lies outside the program. *)
Record Env := mkEnv {
  Fore : Colours;
  (** the value of the n-th call of [time.time()], in seconds *)
  clock : nat -> Z;
  (** [Path(p).read_text(encoding="utf-8")], [None] when [p] does not exist *)
  read_text : string -> option string;
  (** [str(Path(p))]: the spelling that [pathlib] gives the path [p] *)
  path_str : string -> string;
  (** [extractor.run()]: [None] when it completes, the message of the
      error when it raises *)
  run_outcome : Extractor -> option string
}.

Definition nl : string := String (ascii_of_nat 10) EmptyString.

(** [item.lower().startswith(("http://", "https://"))] *)
Definition is_url (item : string) : bool :=
  PyStr.startswith "http://" (PyStr.lower item)
  || PyStr.startswith "https://" (PyStr.lower item).

(** Truth value of [job_args.link]: a non-empty [str]. *)
Definition link_truthy (l : option string) : bool :=
  match l with
  | Some s => PyStr.truthy s
  | None => false
  end.

(** Lines 29-39 of [Main.__init__] (and, with [i] and [len(items)] for
    [idx] and [total], lines 78-85 of [Main.get_extractor]): the per-job
    copy of [self.args] with its link and file name resolved. *)
Definition materialize (base : Args) (item : string) (idx total : nat) : JobArgs :=
  if is_url item then
    let job_args := set_link (Some item) base in
    if PyStr.truthy (filename job_args) && (1 <? total)
    then set_filename (filename job_args +:+ "_" +:+ PyStr.format_0d_nat 3 idx) job_args
    else job_args
  else
    set_filename item (set_link None base).

(** Lines 98-107 of [Main.get_extractor] ("Existing behaviors"). *)
Definition existing_behaviors (args : JobArgs) : Extractor :=
  if negb (link_truthy (link args)) && PyStr.truthy (filename args) then
    HianimeExtractor args (Some (filename args))
  else if link_truthy (link args) && PyStr.contains "hianime" (default "" (link args)) then
    HianimeExtractor args None
  else if link_truthy (link args) && PyStr.contains "instagram.com" (default "" (link args)) then
    InstagramExtractor args
  else
    GeneralExtractor args.

(** Lines 131-138 of [Main.build_jobs]: the loop over [jobs] with its set
    [seen] and its list [out]. *)
Fixpoint dedupe_loop (seen : gset string) (out : list string) (jobs : list string) : list string :=
  match jobs with
  | [] => out
  | j :: rest =>
      if decide (j ∈ seen)
      then dedupe_loop seen out rest
      else dedupe_loop ({[ j ]} ∪ seen) (out ++ [j]) rest
  end.

Definition dedupe (jobs : list string) : list string := dedupe_loop ∅ [] jobs.

(** Lines 121-125 of [Main.build_jobs]: the items of a links file. *)
Fixpoint file_lines (lines : list string) : list string :=
  match lines with
  | [] => []
  | line :: rest =>
      let line := PyStr.strip line in
      if negb (PyStr.truthy line) || PyStr.startswith "#" line
      then file_lines rest
      else line :: file_lines rest
  end.

Definition file_items (text : string) : list string :=
  file_lines (PyStr.splitlines text).

(** Truth value of [self.args.links_file]: a non-empty [str] (not [None]). *)
Definition links_file_given (f : option string) : option string :=
  match f with
  | Some p => if PyStr.truthy p then Some p else None
  | None => None
  end.

Section Program.

Variable env : Env.

Definition time : M Z :=
  fun w => (Ok (clock env (ticks w)),
            {| self_args := self_args w; stdin := stdin w;
               ticks := S (ticks w); trace := trace w |}).

(** [extractor.run()] *)
Definition run (e : Extractor) : M unit :=
  emit (ERun e) ;;;
  match run_outcome env e with
  | None => ret tt
  | Some msg => raise (RunError msg)
  end.

(** [Main.build_jobs]. The missing-file error names the path as [pathlib]
    spells it, [path_str env p]. *)
Definition build_jobs : M (list string) :=
  args <~ get_self_args ;;
  let jobs := link args in
  jobs <~ match links_file_given (links_file args) with
          | Some p =>
              match read_text env p with
              | None => raise (FileNotFoundError ("links file not found: " +:+ path_str env p))
              | Some text => ret (jobs ++ file_items text)
              end
          | None => ret jobs
          end ;;
  let jobs :=
    if match jobs with [] => true | _ => false end
       && PyStr.truthy (filename args)
       && match link args with [] => true | _ => false end
    then jobs ++ [filename args] else jobs in
  ret (dedupe jobs).

Definition prompt : string :=
  LIGHTYELLOW_EX (Fore env) +:+ "> " +:+ RESET (Fore env).

(** Lines 66-71 of [Main.get_extractor]: the [while True] loop over
    [input()]; [lines] is what standard input still holds, and the end
    of input raises [EOFError]. *)
Fixpoint input_loop (lines : list string) (items : list string) : M (list string) :=
  fun w =>
    let w1 := {| self_args := self_args w; stdin := lines;
                 ticks := ticks w; trace := trace w ++ [EPrompt prompt] |} in
    match lines with
    | [] => (Raise EOFError, w1)
    | l :: rest =>
        let line := PyStr.strip l in
        if PyStr.truthy line
        then input_loop rest (items ++ [line]) w1
        else (Ok items, {| self_args := self_args w1; stdin := rest;
                           ticks := ticks w1; trace := trace w1 |})
    end.

Definition read_items : M (list string) :=
  fun w => input_loop (stdin w) [] w.

(** Lines 77-88 of [Main.get_extractor]: the nested batch. [self] is the
    recursive call of [get_extractor]. *)
Fixpoint nested_batch (self : JobArgs -> M Extractor) (n i : nat) (items : list string) : M unit :=
  match items with
  | [] => ret tt
  | it :: rest =>
      base <~ get_self_args ;;
      let job_args := materialize base it i n in
      extractor <~ self job_args ;;
      run extractor ;;;
      nested_batch self n (S i) rest
  end.

Definition banner_line : string :=
  LIGHTGREEN_EX (Fore env) +:+ "GDown " +:+ LIGHTCYAN_EX (Fore env)
  +:+ "Downloader" +:+ RESET (Fore env) +:+ nl.

Definition paste_line : string :=
  "Paste links/search terms (one per line). Blank line to start." +:+ nl.

(** [Main.get_extractor]. The method calls itself from its nested
    batch; [depth] bounds the depth of these calls. *)
Fixpoint get_extractor_rec (depth : nat) (args : JobArgs) : M Extractor :=
  match depth with
  | O => fun w => (OutOfFuel, w)
  | S depth' =>
      if negb (link_truthy (link args)) && negb (PyStr.truthy (filename args)) then
        emit EClear ;;;
        print banner_line ;;;
        print paste_line ;;;
        items <~ read_items ;;
        if 1 <? length items then
          base <~ get_self_args ;;
          put_self_args (set_link [] base) ;;;
          nested_batch (get_extractor_rec depth') (length items) 1 items ;;;
          ret (GeneralExtractor args)
        else
          let ans := match items with it :: _ => it | [] => "" end in
          if is_url ans
          then ret (existing_behaviors (set_link (Some ans) args))
          else ret (HianimeExtractor args (Some ans))
      else
        ret (existing_behaviors args)
  end.

(** Depth 2 is all the program uses: the items of the nested batch are
    not empty, so its calls do not open a session of their own (lemma
    [get_extractor_depth]). *)
Definition get_extractor : JobArgs -> M Extractor := get_extractor_rec 2.

(** [f"{int(x // 60)}:{int(x % 60):02d}"] *)
Definition min_sec_floor (x : Z) : string :=
  PyStr.str_of_Z (x / 60) +:+ ":" +:+ PyStr.format_0d 2 (x mod 60).

(** [f"{int(x / 60)}:{int(x % 60):02d}"] *)
Definition min_sec_trunc (x : Z) : string :=
  PyStr.str_of_Z (x ÷ 60) +:+ ":" +:+ PyStr.format_0d 2 (x mod 60).

Definition processing_line (idx total : nat) (item : string) : string :=
  LIGHTCYAN_EX (Fore env) +:+ "[" +:+ PyStr.str_of_nat idx +:+ "/"
  +:+ PyStr.str_of_nat total +:+ "] Processing: " +:+ item +:+ RESET (Fore env).

Definition failed_line (item : string) (e : exn) : string :=
  RED (Fore env) +:+ "Failed: " +:+ item +:+ nl +:+ "  -> " +:+ exn_str e
  +:+ RESET (Fore env).

Definition done_line (idx total : nat) (per_elapsed : Z) : string :=
  LIGHTGREEN_EX (Fore env) +:+ "Done [" +:+ PyStr.str_of_nat idx +:+ "/"
  +:+ PyStr.str_of_nat total +:+ "] in " +:+ min_sec_floor per_elapsed
  +:+ RESET (Fore env) +:+ nl.

Definition took_line (elapsed : Z) : string :=
  "Took " +:+ min_sec_trunc elapsed +:+ " to finish".

(** Lines 25-57 of [Main.__init__]: the loop over
    [enumerate(jobs, start=1)], from index [idx] on. *)
Fixpoint job_loop (total idx : nat) (jobs : list string) : M unit :=
  match jobs with
  | [] => ret tt
  | item :: rest =>
      per_start <~ time ;;
      base <~ get_self_args ;;
      let job_args := materialize base item idx total in
      print (processing_line idx total item) ;;;
      try_except_finally
        (extractor <~ get_extractor job_args ;;
         run extractor)
        (fun e =>
           print (failed_line item e) ;;;
           base <~ get_self_args ;;
           if negb (continue_on_error base) then raise e else ret tt)
        (now <~ time ;;
         print (done_line idx total (now - per_start))) ;;;
      job_loop total (S idx) rest
  end.

Definition nothing_line : string :=
  RED (Fore env) +:+ "No links/search terms provided. Nothing to do."
  +:+ RESET (Fore env).

(** [Main.__init__], with [self.args = self.parse_args()] already done:
    the parsed arguments are the [self_args] of the world it starts in. *)
Definition Main : M unit :=
  args <~ get_self_args ;;
  emit (EMkdir (output_dir args)) ;;;
  jobs <~ build_jobs ;;
  match jobs with
  | [] => print nothing_line
  | _ => job_loop (length jobs) 1 jobs
  end.

(** The [__main__] block. *)
Definition main : M unit :=
  start <~ time ;;
  Main ;;;
  now <~ time ;;
  print (took_line (now - start)).

End Program.

(** The world a process starts in: the parsed command line, the lines that
    standard input will deliver, no clock reading taken, nothing observed. *)
Definition initial (args : Args) (input : list string) : World :=
  {| self_args := args; stdin := input; ticks := 0; trace := [] |}.

(** ** Words of the specification *)

(** [n] occurs in [h] as a substring. *)
Definition Substring (n h : string) : Prop := ∃ a b, h = a +:+ n +:+ b.

(** [s] starts with [p] when letter case is ignored. *)
Definition CiPrefix (p s : string) : Prop :=
  ∃ a t, s = a +:+ t ∧ PyStr.lower a = PyStr.lower p.

(** An item that reads as a URL. *)
Definition UrlItem (item : string) : Prop :=
  CiPrefix "http://" item ∨ CiPrefix "https://" item.

(** A link that is present: the program tests the truth value of the
    attribute, so [None] and the empty string both count as absent. *)
Definition Present (l : option string) : Prop := ∃ s, l = Some s ∧ s ≠ "".

(** The items of [l] that stand at the position of their first appearance,
    in the order of their positions. *)
Definition first_occurrences (l : list string) : list string :=
  omap (λ i, x ← l !! i; if decide (x ∈ take i l) then None else Some x)
       (seq 0 (length l)).

(** A line that is kept from a links file: not blank, and not starting
    with [#]. *)
Definition Kept (s : string) : Prop := s ≠ "" ∧ String.get 0 s ≠ Some "#"%char.

#[global] Instance Kept_dec s : Decision (Kept s).
Proof. unfold Kept. apply _. Defined.

(** A string of white space only. *)
Fixpoint all_space (s : string) : bool :=
  match s with
  | EmptyString => true
  | String c s' => PyStr.isspace c && all_space s'
  end.

(** A string with no white space at its start or at its end. *)
Definition NoOuterSpace (s : string) : Prop :=
  (∀ c t, s = String c t → PyStr.isspace c = false)
  ∧ (∀ t c, s = t +:+ String c "" → PyStr.isspace c = false).

(** The strategies whose [run()] a trace records, in order. *)
Definition runs (tr : list Event) : list Extractor :=
  omap (λ ev, match ev with ERun e => Some e | _ => None end) tr.

(** The strategy of the job made from [item] at index [idx] of [total],
    when the router does not open an interactive session. *)
Definition job_extractor (base : Args) (total idx : nat) (item : string) : Extractor :=
  existing_behaviors (materialize base item idx total).

(** The strategies of the jobs made from [jobs], the first at index [idx]. *)
Fixpoint job_extractors (base : Args) (total idx : nat) (jobs : list string) : list Extractor :=
  match jobs with
  | [] => []
  | item :: rest => job_extractor base total idx item :: job_extractors base total (S idx) rest
  end.

(** The strategies of [exts] up to and including the first whose [run()]
    raises, with the message of that error. *)
Fixpoint until_failure (env : Env) (exts : list Extractor) : list Extractor * option string :=
  match exts with
  | [] => ([], None)
  | e :: rest =>
      match run_outcome env e with
      | Some msg => ([e], Some msg)
      | None => let '(l, r) := until_failure env rest in (e :: l, r)
      end
  end.

(** An event that is no part of an interactive session: not the clearing
    of the screen and not a prompt. *)
Definition plain_event (ev : Event) : Prop :=
  match ev with
  | EClear | EPrompt _ => False
  | _ => True
  end.

(** The events of the job made from [item] when the router does not open
    an interactive session; [t] is the number of clock readings before. *)
Definition job_events (env : Env) (base : Args) (total idx : nat) (item : string) (t : nat)
  : list Event :=
  [EPrint (processing_line env idx total item);
   ERun (job_extractor base total idx item)]
  ++ match run_outcome env (job_extractor base total idx item) with
     | Some msg => [EPrint (failed_line env item (RunError msg))]
     | None => []
     end
  ++ [EPrint (done_line env idx total (clock env (S t) - clock env t))].

(** The world after the handler and the [finally] block of a job that
    started at [per_start] and ended in [w], with the error [err] if any. *)
Definition job_end (env : Env) (total idx : nat) (item : string) (per_start : Z)
    (err : option exn) (w : World) : World :=
  mkWorld (self_args w) (stdin w) (S (ticks w))
    (trace w
     ++ match err with Some e => [EPrint (failed_line env item e)] | None => [] end
     ++ [EPrint (done_line env idx total (clock env (ticks w) - per_start))]).



(** The events of the jobs made from [jobs], one after the other, when no
    job opens an interactive session and none ends the loop; the first
    job has index [idx] and starts after [t] clock readings, and every job
    takes two readings. *)
Fixpoint batch_events (env : Env) (base : Args) (total idx t : nat) (jobs : list string)
  : list Event :=
  match jobs with
  | [] => []
  | item :: rest =>
      job_events env base total idx item t
      ++ batch_events env base total (S idx) (S (S t)) rest
  end.

(** The number that a string of decimal digits writes, leading zeros
    allowed. *)
Definition decode_nat (s : string) : option nat :=
  Nat.of_uint <$> NilEmpty.uint_of_string s.

(** Two values of [self.args] that agree on every attribute but [link],
    the second with the same links or with none. *)
Definition same_prefs (a a' : Args) : Prop :=
  set_link tt a' = set_link tt a ∧ (link a' = link a ∨ link a' = []).

(** ** Concrete runs *)

Definition plain_colours : Colours := mkColours "" "" "" "" "".

Definition target (e : Extractor) : string :=
  match e with
  | GeneralExtractor a | HianimeExtractor a _ | InstagramExtractor a =>
      default (filename a) (link a)
  end.

(** An environment with no links file, a clock that stands still, and
    strategies that raise ["boom"] on the targets in [failing]. *)
Definition test_env (failing : list string) : Env :=
  mkEnv plain_colours (λ _, 0%Z) (λ _, None) (λ p, p)
        (λ e, if decide (target e ∈ failing) then Some "boom" else None).

Definition test_args (links : list string) (name : string) (coe : bool) : Args :=
  mkNamespace false "output" name false links None coe None.

Definition empty_job : JobArgs := set_link None (test_args [] "" false).

(** The links file of the specification's example, under the name
    [links.txt], with strategies that all complete. *)
Definition example_file : string :=
  "# comment" +:+ nl +:+ nl +:+ "http://a.com" +:+ nl +:+ "foo" +:+ nl.

Definition file_env : Env :=
  mkEnv plain_colours (λ _, 0%Z)
        (λ p, if decide (p = "links.txt") then Some example_file else None)
        (λ p, p)
        (λ _, None).

Definition file_args : Args :=
  mkNamespace false "output" "" false [] (Some "links.txt") false None.

(** ** Strings *)

#[local] Arguments String.append !_ _ : simpl nomatch.
#[local] Set Warnings "-clear-no-such-hyp".

Lemma startswith_spec p s :
  PyStr.startswith p s = true ↔ ∃ t, s = p +:+ t.
Proof.
  revert s. induction p as [|a p IH]; intros s; simpl.
  - split; [intros _; by exists s | done].
  - destruct s as [|b s].
    + split; [done | intros [t Ht]; discriminate].
    + destruct (decide (a = b)) as [->|Hne].
      * rewrite IH. split; intros [t Ht]; exists t; simpl in *; congruence.
      * split; [done | intros [t Ht]; simpl in Ht; congruence].
Qed.

Lemma contains_spec n h : PyStr.contains n h = true ↔ Substring n h.
Proof.
  unfold Substring. split.
  - induction h as [|c h IH]; simpl; rewrite orb_true_iff.
    + intros [H|H]; [|done]. apply startswith_spec in H as [t Ht].
      by exists "", t.
    + intros [H|H].
      * apply startswith_spec in H as [t Ht]. by exists "", t.
      * destruct (IH H) as (a & b & ->). by exists (String c a), b.
  - intros (a & b & ->). induction a as [|c a IH]; simpl.
    + destruct (n +:+ b) eqn:E; simpl; rewrite orb_true_iff; left;
        apply startswith_spec; by exists b.
    + rewrite IH. apply orb_true_r.
Qed.

Lemma lower_app a t : PyStr.lower (a +:+ t) = PyStr.lower a +:+ PyStr.lower t.
Proof. induction a as [|c a IH]; simpl; [done | by rewrite IH]. Qed.

Lemma lower_split p s t' :
  PyStr.lower s = p +:+ t' →
  ∃ a t, s = a +:+ t ∧ PyStr.lower a = p ∧ PyStr.lower t = t'.
Proof.
  revert s. induction p as [|c p IH]; intros s H; simpl in H.
  - by exists "", s.
  - destruct s as [|d s]; simpl in H; [discriminate|].
    injection H as Hc Hs. destruct (IH _ Hs) as (a & t & -> & Ha & Ht).
    exists (String d a), t. simpl. by rewrite Hc, Ha.
Qed.

Lemma ci_prefix_spec p s :
  PyStr.lower p = p →
  PyStr.startswith p (PyStr.lower s) = true ↔ CiPrefix p s.
Proof.
  intros Hp. rewrite startswith_spec. unfold CiPrefix. rewrite Hp. split.
  - intros [t' Ht']. destruct (lower_split _ _ _ Ht') as (a & t & -> & Ha & _).
    by exists a, t.
  - intros (a & t & -> & Ha). exists (PyStr.lower t). by rewrite lower_app, Ha.
Qed.

Lemma is_url_spec item : is_url item = true ↔ UrlItem item.
Proof.
  unfold is_url, UrlItem. rewrite orb_true_iff.
  by rewrite !ci_prefix_spec.
Qed.

Lemma is_url_nonempty item : is_url item = true → item ≠ "".
Proof. by intros H ->. Qed.

Lemma truthy_spec s : PyStr.truthy s = true ↔ s ≠ "".
Proof. destruct s; simpl; split; done. Qed.

Lemma truthy_false_spec s : PyStr.truthy s = false ↔ s = "".
Proof. destruct s; simpl; split; done. Qed.

Lemma link_truthy_spec l : link_truthy l = true ↔ Present l.
Proof.
  unfold Present. destruct l as [s|]; simpl.
  - rewrite truthy_spec. split; [intros H; by exists s | intros (s' & [= <-] & H); done].
  - split; [done | intros (s' & H & _); done].
Qed.

(** ** The input collector: de-duplication *)

Lemma dedupe_loop_app seen out l1 l2 :
  dedupe_loop seen out (l1 ++ l2)
  = dedupe_loop (seen ∪ list_to_set l1) (dedupe_loop seen out l1) l2.
Proof.
  revert seen out. induction l1 as [|j l1 IH]; intros seen out; simpl.
  - by rewrite (right_id_L ∅ (∪)).
  - destruct (decide (j ∈ seen)) as [Hin|Hnin]; rewrite IH; f_equal; set_solver.
Qed.

Lemma dedupe_snoc l x :
  dedupe (l ++ [x]) = if decide (x ∈ l) then dedupe l else dedupe l ++ [x].
Proof.
  unfold dedupe. rewrite dedupe_loop_app. simpl.
  destruct (decide (x ∈ ∅ ∪ list_to_set l)) as [H|H], (decide (x ∈ l)) as [H'|H'];
    try done; set_solver.
Qed.

Lemma omap_ext_in {A B} (f g : A → option B) (l : list A) :
  (∀ x, x ∈ l → f x = g x) → omap f l = omap g l.
Proof.
  induction l as [|a l IH]; intros H; [done|]. csimpl.
  rewrite (H a) by left.
  destruct (g a); [f_equal|]; apply IH; intros x Hx; apply H; by right.
Qed.

Lemma first_occurrences_snoc l x :
  first_occurrences (l ++ [x])
  = if decide (x ∈ l) then first_occurrences l else first_occurrences l ++ [x].
Proof.
  unfold first_occurrences. rewrite length_app. simpl.
  rewrite seq_app, omap_app. csimpl.
  rewrite lookup_app_r, Nat.sub_diag by lia. csimpl.
  rewrite take_app_length.
  rewrite (omap_ext_in _ (λ i, x0 ← l !! i; if decide (x0 ∈ take i l) then None else Some x0)).
  - destruct (decide (x ∈ l)); [by rewrite app_nil_r | done].
  - intros i Hi. apply elem_of_seq in Hi as [_ Hi]. simpl in Hi.
    rewrite lookup_app_l by done. by rewrite take_app_le by lia.
Qed.

Lemma dedupe_first_occurrences l : dedupe l = first_occurrences l.
Proof.
  induction l as [|x l IH] using rev_ind; [done|].
  by rewrite dedupe_snoc, first_occurrences_snoc, IH.
Qed.

Lemma dedupe_elem_of l x : x ∈ dedupe l ↔ x ∈ l.
Proof.
  induction l as [|y l IH] using rev_ind; [done|].
  rewrite dedupe_snoc. destruct (decide (y ∈ l)) as [Hy|Hy].
  - rewrite IH. set_solver.
  - set_solver.
Qed.

Lemma dedupe_NoDup l : NoDup (dedupe l).
Proof.
  induction l as [|y l IH] using rev_ind; [constructor|].
  rewrite dedupe_snoc. destruct (decide (y ∈ l)) as [Hy|Hy]; [done|].
  apply NoDup_app. split_and!; [done| |apply NoDup_singleton].
  intros z Hz Hz'. apply list_elem_of_singleton in Hz' as ->.
  rewrite dedupe_elem_of in Hz. done.
Qed.

Lemma dedupe_sublist l : sublist (dedupe l) l.
Proof.
  induction l as [|y l IH] using rev_ind; [done|].
  rewrite dedupe_snoc. destruct (decide (y ∈ l)) as [Hy|Hy].
  - by apply sublist_inserts_r.
  - by apply sublist_app.
Qed.

(** C4. The de-duplication of [build_jobs] returns the items that stand at
    the position of their first appearance, in the order of the input:
    the result is a subsequence of the input, holds every string of the
    input exactly once, and on [a,b,a,c,b] it is [a,b,c]. *)
Theorem dedupe_first_occurrence_order :
  (∀ l : list string,
      dedupe l = first_occurrences l
      ∧ sublist (dedupe l) l
      ∧ NoDup (dedupe l)
      ∧ (∀ x, x ∈ dedupe l ↔ x ∈ l))
  ∧ dedupe ["a"; "b"; "a"; "c"; "b"] = ["a"; "b"; "c"].
Proof.
  split.
  - intros l. split_and!.
    + apply dedupe_first_occurrences.
    + apply dedupe_sublist.
    + apply dedupe_NoDup.
    + apply dedupe_elem_of.
  - by vm_compute.
Qed.

(** ** The job materialiser *)

Lemma zeros_length n : String.length (PyStr.zeros n) = n.
Proof. induction n; simpl; congruence. Qed.

Lemma append_length a b : String.length (a +:+ b) = String.length a + String.length b.
Proof. induction a as [|c a IH]; simpl; [done | by rewrite IH]. Qed.

Lemma append_assoc a b c : (a +:+ b) +:+ c = a +:+ b +:+ c.
Proof. induction a as [|x a IH]; simpl; [done | by rewrite IH]. Qed.

Lemma zfill_length width d :
  String.length (PyStr.zfill width d) = width `max` String.length d.
Proof. unfold PyStr.zfill. rewrite append_length, zeros_length. lia. Qed.

(** C3. Materialisation of an item that starts with [http://] or
    [https://], letter case ignored, sets the link to the item; it sets the
    file name to the base file name, an underscore and the index padded
    with zeros to width 3 exactly when the base file name is not empty and
    the batch has more than one job, and leaves it as configured otherwise.
    For any other item the link is [None] and the file name is the item. *)
Theorem materialize_spec (base : Args) (item : string) (idx total : nat) :
  let job := materialize base item idx total in
  let padded := PyStr.zfill 3 (PyStr.str_of_nat idx) in
  (UrlItem item →
     link job = Some item
     ∧ (filename base ≠ "" ∧ 1 < total →
          filename job = filename base +:+ "_" +:+ padded)
     ∧ (filename base = "" ∨ total ≤ 1 → filename job = filename base))
  ∧ (¬ UrlItem item → link job = None ∧ filename job = item)
  ∧ String.length padded = 3 `max` String.length (PyStr.str_of_nat idx).
Proof.
  simpl. unfold materialize. split_and!.
  - intros Hurl%is_url_spec. rewrite Hurl. simpl. split_and!.
    + by destruct (PyStr.truthy (filename base) && (1 <? total)).
    + intros [Hf%truthy_spec Ht%Nat.ltb_lt]. by rewrite Hf, Ht.
    + intros [Hf%truthy_false_spec | Ht].
      * by rewrite Hf.
      * apply Nat.ltb_ge in Ht. rewrite Ht, andb_false_r. done.
  - intros Hurl. destruct (is_url item) eqn:E; [|done].
    by apply is_url_spec in E.
  - apply zfill_length.
Qed.

(** ** The router *)

Lemma get_extractor_rec_plain env depth (args : JobArgs) w :
  link_truthy (link args) || PyStr.truthy (filename args) = true →
  get_extractor_rec env (S depth) args w = (Ok (existing_behaviors args), w).
Proof.
  intros H. simpl.
  destruct (link_truthy (link args)), (PyStr.truthy (filename args)); done.
Qed.

(** C2. A job with a link present or a non-empty file name gets exactly one
    strategy and no error, chosen in this order: no link, the streaming
    site with the file name as search term; a link with the streaming-site
    marker, the streaming site; a link with the social-media marker, the
    social-media strategy; any other link, the general strategy. *)
Theorem get_extractor_routes env (args : JobArgs) (w : World) :
  Present (link args) ∨ filename args ≠ "" →
  ∃ e, get_extractor env args w = (Ok e, w)
    ∧ (¬ Present (link args) → e = HianimeExtractor args (Some (filename args)))
    ∧ (∀ l, link args = Some l → l ≠ "" →
         (Substring "hianime" l → e = HianimeExtractor args None)
         ∧ (¬ Substring "hianime" l → Substring "instagram.com" l →
              e = InstagramExtractor args)
         ∧ (¬ Substring "hianime" l → ¬ Substring "instagram.com" l →
              e = GeneralExtractor args)).
Proof.
  intros H. exists (existing_behaviors args). split_and!.
  - apply get_extractor_rec_plain. rewrite orb_true_iff.
    by rewrite link_truthy_spec, truthy_spec.
  - intros Hn. unfold existing_behaviors.
    destruct (link_truthy (link args)) eqn:E.
    + by apply link_truthy_spec in E.
    + destruct H as [H|H]; [done|]. apply truthy_spec in H. by rewrite H.
  - intros l Hl Hne. unfold existing_behaviors. rewrite Hl. simpl.
    apply truthy_spec in Hne. rewrite Hne. simpl.
    destruct (PyStr.contains "hianime" l) eqn:E1;
      [apply contains_spec in E1 | apply not_true_iff_false in E1; rewrite contains_spec in E1];
    (destruct (PyStr.contains "instagram.com" l) eqn:E2;
      [apply contains_spec in E2 | apply not_true_iff_false in E2; rewrite contains_spec in E2]);
    split_and!; intros; done.
Qed.

(** ** The input collector: the links file *)

Lemma lstrip_head s c t : PyStr.lstrip s = String c t → PyStr.isspace c = false.
Proof.
  induction s as [|d s IH]; simpl; [done|].
  destruct (PyStr.isspace d) eqn:E; [done|]. by intros [= <- _].
Qed.

Lemma rstrip_cons c s :
  PyStr.isspace c = false → ∃ r, PyStr.rstrip (String c s) = String c r.
Proof.
  intros Hc. simpl. destruct (PyStr.rstrip s) as [|d r].
  - rewrite Hc. by exists "".
  - by exists (String d r).
Qed.

Lemma rstrip_last s t c :
  PyStr.rstrip s = t +:+ String c "" → PyStr.isspace c = false.
Proof.
  revert t. induction s as [|d s IH]; intros t; simpl.
  - by destruct t.
  - destruct (PyStr.rstrip s) as [|e r] eqn:E.
    + destruct (PyStr.isspace d) eqn:Ed; [by destruct t|].
      destruct t as [|a [|b t]]; simpl; intros [= ]; by subst.
    + destruct t as [|a t]; simpl; [intros [= ]|].
      intros [= _ H]. by eapply IH.
Qed.

Lemma strip_no_outer_space s : NoOuterSpace (PyStr.strip s).
Proof.
  unfold PyStr.strip. split.
  - intros c t H. destruct (PyStr.lstrip s) as [|d u] eqn:E; [done|].
    apply lstrip_head in E. destruct (rstrip_cons d u E) as [r Hr].
    rewrite Hr in H. by injection H as <- _.
  - intros t c H. by eapply rstrip_last.
Qed.

Lemma lstrip_all_space s : all_space s = true → PyStr.lstrip s = "".
Proof.
  induction s as [|c s IH]; simpl; [done|].
  intros [Hc Hs]%andb_true_iff. rewrite Hc. auto.
Qed.

Lemma strip_all_space s : all_space s = true → PyStr.strip s = "".
Proof. intros H. unfold PyStr.strip. by rewrite lstrip_all_space. Qed.

Lemma lstrip_indented ws t :
  all_space ws = true → PyStr.lstrip (ws +:+ t) = PyStr.lstrip t.
Proof.
  induction ws as [|c ws IH]; simpl; [done|].
  intros [Hc Hs]%andb_true_iff. rewrite Hc. auto.
Qed.

Lemma strip_indented_hash ws rest :
  all_space ws = true →
  ∃ r, PyStr.strip (ws +:+ String "#" rest) = String "#" r.
Proof.
  intros H. unfold PyStr.strip. rewrite lstrip_indented by done.
  change (PyStr.lstrip (String "#" rest)) with (String "#" rest).
  by apply rstrip_cons.
Qed.

Lemma keep_line_spec s :
  negb (PyStr.truthy s) || PyStr.startswith "#" s = false ↔ Kept s.
Proof.
  unfold Kept. destruct s as [|c s]; simpl; [split; [done | by intros [? _]]|].
  destruct (decide ("#"%char = c)) as [<-|Hne]; simpl.
  - split; [done | by intros [_ ?]].
  - split; [|done]. intros _. split; [done|]. by intros [= ->].
Qed.

Lemma file_lines_cons line lines :
  file_lines (line :: lines) =
    if negb (PyStr.truthy (PyStr.strip line)) || PyStr.startswith "#" (PyStr.strip line)
    then file_lines lines
    else PyStr.strip line :: file_lines lines.
Proof. done. Qed.

Lemma file_lines_filter lines :
  file_lines lines = filter Kept (PyStr.strip <$> lines).
Proof.
  induction lines as [|line lines IH]; [done|].
  rewrite file_lines_cons, fmap_cons.
  destruct (negb (PyStr.truthy (PyStr.strip line))
            || PyStr.startswith "#" (PyStr.strip line)) eqn:E.
  - rewrite filter_cons_False; [done|].
    rewrite <- keep_line_spec. by rewrite E.
  - rewrite filter_cons_True by by apply keep_line_spec. by rewrite IH.
Qed.

Lemma file_lines_app l1 l2 : file_lines (l1 ++ l2) = file_lines l1 ++ file_lines l2.
Proof. by rewrite !file_lines_filter, fmap_app, filter_app. Qed.

Lemma file_lines_skip l1 line l2 :
  ¬ Kept (PyStr.strip line) → file_lines (l1 ++ line :: l2) = file_lines (l1 ++ l2).
Proof.
  intros H. rewrite !file_lines_app. f_equal.
  rewrite !file_lines_filter, fmap_cons. by rewrite filter_cons_False.
Qed.

(** C10. Every line of the links file is stripped before it is tested and
    before it is added: the items are the kept ones among the stripped
    lines, so no item has white space at its start or end; a line of white
    space only is skipped; and a line whose first character after the
    white space is [#] is skipped. *)
Theorem file_lines_stripped (lines : list string) :
  file_lines lines = filter Kept (PyStr.strip <$> lines)
  ∧ (∀ x, x ∈ file_lines lines → NoOuterSpace x ∧ x ≠ "")
  ∧ (∀ l1 line l2, lines = l1 ++ line :: l2 → all_space line = true →
       file_lines lines = file_lines (l1 ++ l2))
  ∧ (∀ l1 ws rest l2, lines = l1 ++ (ws +:+ String "#" rest) :: l2 →
       all_space ws = true →
       file_lines lines = file_lines (l1 ++ l2)).
Proof.
  split_and!.
  - apply file_lines_filter.
  - intros x. rewrite file_lines_filter, list_elem_of_filter, list_elem_of_fmap.
    intros [[Hx _] (line & -> & _)]. split; [apply strip_no_outer_space | done].
  - intros l1 line l2 -> H. apply file_lines_skip.
    rewrite strip_all_space by done. by intros [? _].
  - intros l1 ws rest l2 -> H. apply file_lines_skip.
    destruct (strip_indented_hash ws rest H) as [r ->]. by intros [_ ?].
Qed.

Lemma build_jobs_eq env (w : World) :
  build_jobs env w =
    match links_file_given (links_file (self_args w)) with
    | Some p =>
        match read_text env p with
        | None => (Raise (FileNotFoundError ("links file not found: " +:+ path_str env p)), w)
        | Some text =>
            (Ok (dedupe (link (self_args w) ++ file_items text ++
                   if decide (link (self_args w) ++ file_items text = []
                              ∧ filename (self_args w) ≠ "")
                   then [filename (self_args w)] else [])), w)
        end
    | None =>
        (Ok (dedupe (link (self_args w) ++
               if decide (link (self_args w) = [] ∧ filename (self_args w) ≠ "")
               then [filename (self_args w)] else [])), w)
    end.
Proof.
  unfold build_jobs, bind, get_self_args, ret, raise.
  destruct (links_file_given _) as [p|].
  - destruct (read_text env p) as [text|]; [|done].
    destruct (link (self_args w)) as [|x l], (file_items text) as [|y its],
      (filename (self_args w)) as [|c f]; simpl;
      try case_decide; rewrite ?app_nil_r; try done; exfalso; naive_solver.
  - destruct (link (self_args w)) as [|x l], (filename (self_args w)) as [|c f];
      simpl; try case_decide; rewrite ?app_nil_r; try done; exfalso; naive_solver.
Qed.

(** C9. With a links-file path given: if the file does not exist, the
    collector raises the missing-file error, whose message names the path
    as [pathlib] spells it, and [Main] ends with it before any job, having
    only made the output directory; if it exists, the
    kept lines of the file, stripped, follow the links of the command line
    in file order in the job list. The file of the specification's example
    gives the items [http://a.com] and [foo]. *)
Theorem build_jobs_links_file env (w : World) (p : string) :
  links_file (self_args w) = Some p → p ≠ "" →
  (read_text env p = None →
     let e := FileNotFoundError ("links file not found: " +:+ path_str env p) in
     build_jobs env w = (Raise e, w)
     ∧ ∃ w', Main env w = (Raise e, w')
         ∧ trace w' = trace w ++ [EMkdir (output_dir (self_args w))])
  ∧ (∀ text, read_text env p = Some text →
       file_items text = filter Kept (PyStr.strip <$> PyStr.splitlines text)
       ∧ build_jobs env w =
           (Ok (dedupe (link (self_args w) ++ file_items text ++
                  if decide (link (self_args w) ++ file_items text = []
                             ∧ filename (self_args w) ≠ "")
                  then [filename (self_args w)] else [])), w))
  ∧ file_items ("# comment" +:+ nl +:+ nl +:+ "http://a.com" +:+ nl +:+ "foo" +:+ nl)
    = ["http://a.com"; "foo"].
Proof.
  intros Hp Hne.
  assert (links_file_given (links_file (self_args w)) = Some p) as Hg.
  { rewrite Hp. simpl. apply truthy_spec in Hne. by rewrite Hne. }
  split_and!.
  - intros Hfs. simpl. split.
    + by rewrite build_jobs_eq, Hg, Hfs.
    + eexists. split.
      * unfold Main, bind, get_self_args, emit. simpl.
        rewrite build_jobs_eq. simpl. rewrite Hg, Hfs. done.
      * done.
  - intros text Hfs. split.
    + apply file_lines_filter.
    + by rewrite build_jobs_eq, Hg, Hfs.
  - by vm_compute.
Qed.

(** ** One job outside an interactive session *)

Lemma materialize_truthy base item idx total :
  item ≠ "" →
  link_truthy (link (materialize base item idx total))
  || PyStr.truthy (filename (materialize base item idx total)) = true.
Proof.
  intros Hne%truthy_spec. unfold materialize.
  destruct (is_url item); simpl.
  - destruct (PyStr.truthy (filename base) && (1 <? total)); simpl; by rewrite Hne.
  - done.
Qed.

Lemma job_loop_cons_plain env total idx item rest w :
  item ≠ "" →
  job_loop env total idx (item :: rest) w =
    let w1 := mkWorld (self_args w) (stdin w) (S (S (ticks w)))
                (trace w ++ job_events env (self_args w) total idx item (ticks w)) in
    match run_outcome env (job_extractor (self_args w) total idx item) with
    | Some msg =>
        if continue_on_error (self_args w)
        then job_loop env total (S idx) rest w1
        else (Raise (RunError msg), w1)
    | None => job_loop env total (S idx) rest w1
    end.
Proof.
  intros Hne. cbn [job_loop].
  unfold bind at 1. unfold time at 1. unfold bind at 1. unfold get_self_args at 1.
  cbn [self_args stdin ticks trace].
  unfold bind at 1. unfold print at 1. unfold emit at 1.
  cbn [self_args stdin ticks trace].
  unfold bind at 1. unfold try_except_finally.
  unfold bind at 1. unfold get_extractor.
  rewrite get_extractor_rec_plain by by apply materialize_truthy.
  fold (job_extractor (self_args w) total idx item).
  unfold run, bind, emit, time, print, emit, get_self_args, ret, raise, job_events.
  cbn [self_args stdin ticks trace].
  destruct (run_outcome env (job_extractor (self_args w) total idx item)) as [msg|].
  - cbn [self_args stdin ticks trace].
    destruct (continue_on_error (self_args w)); cbn [negb self_args stdin ticks trace];
      rewrite <- !app_assoc; reflexivity.
  - cbn [self_args stdin ticks trace]. rewrite <- !app_assoc. reflexivity.
Qed.

Lemma runs_app t1 t2 : runs (t1 ++ t2) = runs t1 ++ runs t2.
Proof. apply omap_app. Qed.

Lemma runs_job_events env base total idx item t :
  runs (job_events env base total idx item t) = [job_extractor base total idx item].
Proof.
  unfold job_events.
  by destruct (run_outcome env (job_extractor base total idx item)).
Qed.

Lemma job_events_plain env base total idx item t :
  Forall plain_event (job_events env base total idx item t).
Proof.
  unfold job_events.
  destruct (run_outcome env (job_extractor base total idx item));
    repeat constructor.
Qed.

Lemma failed_in_job_events env base total idx item t msg :
  run_outcome env (job_extractor base total idx item) = Some msg →
  EPrint (failed_line env item (RunError msg)) ∈ job_events env base total idx item t.
Proof. intros H. unfold job_events. rewrite H. set_solver. Qed.

(** ** The job loop outside an interactive session *)

Lemma job_loop_plain env total jobs : ∀ idx w,
  Forall (λ j, j ≠ "") jobs →
  ∃ r n evs,
    job_loop env total idx jobs w
    = (r, mkWorld (self_args w) (stdin w) (ticks w + n) (trace w ++ evs))
    ∧ Forall plain_event evs ∧ r ≠ OutOfFuel.
Proof.
  induction jobs as [|item rest IH]; intros idx w Hne.
  - exists (Ok tt), 0, []. destruct w. simpl. by rewrite Nat.add_0_r, app_nil_r.
  - apply Forall_cons in Hne as [Hi Hrest].
    rewrite job_loop_cons_plain by done. cbn zeta.
    set (w1 := mkWorld _ _ _ _).
    destruct (IH (S idx) w1 Hrest) as (r & n & evs & Heq & Hpl & Hr).
    assert (∀ r' : Res unit, (r', mkWorld (self_args w1) (stdin w1) (ticks w1 + n) (trace w1 ++ evs))
            = (r', mkWorld (self_args w) (stdin w) (ticks w + (2 + n))
                     (trace w ++ (job_events env (self_args w) total idx item (ticks w) ++ evs))))
      as Hw.
    { intros r'. subst w1. cbn [self_args stdin ticks trace].
      rewrite <- app_assoc. do 2 f_equal. lia. }
    assert (Forall plain_event (job_events env (self_args w) total idx item (ticks w) ++ evs)) as Hall.
    { apply Forall_app. split; [apply job_events_plain | done]. }
    destruct (run_outcome env _) as [msg|].
    + destruct (continue_on_error (self_args w)).
      * exists r, (2 + n), (job_events env (self_args w) total idx item (ticks w) ++ evs).
        by rewrite Heq, Hw.
      * exists (Raise (RunError msg)), 2, (job_events env (self_args w) total idx item (ticks w)).
        split_and!; [|apply job_events_plain|done].
        subst w1. do 2 f_equal. lia.
    + exists r, (2 + n), (job_events env (self_args w) total idx item (ticks w) ++ evs).
      by rewrite Heq, Hw.
Qed.

Lemma job_loop_plain_all env total jobs : ∀ idx w,
  Forall (λ j, j ≠ "") jobs →
  continue_on_error (self_args w) = true
  ∨ Forall (λ e, run_outcome env e = None) (job_extractors (self_args w) total idx jobs) →
  ∃ evs,
    job_loop env total idx jobs w
    = (Ok tt, mkWorld (self_args w) (stdin w) (ticks w + 2 * length jobs) (trace w ++ evs))
    ∧ runs evs = job_extractors (self_args w) total idx jobs
    ∧ (∀ k item msg, jobs !! k = Some item →
         run_outcome env (job_extractor (self_args w) total (idx + k) item) = Some msg →
         EPrint (failed_line env item (RunError msg)) ∈ evs).
Proof.
  induction jobs as [|item rest IH]; intros idx w Hne Hok.
  - exists []. destruct w. simpl. rewrite Nat.add_0_r, app_nil_r. done.
  - apply Forall_cons in Hne as [Hi Hrest].
    rewrite job_loop_cons_plain by done. cbn zeta.
    set (w1 := mkWorld _ _ _ _).
    destruct (IH (S idx) w1 Hrest) as (evs & Heq & Hruns & Hfail).
    { destruct Hok as [Hc|Hs]; [by left | right].
      simpl in Hs. by apply Forall_cons in Hs as [_ Hs]. }
    assert (job_loop env total (S idx) rest w1
            = (Ok tt, mkWorld (self_args w) (stdin w) (ticks w + 2 * length (item :: rest))
                        (trace w ++ (job_events env (self_args w) total idx item (ticks w) ++ evs))))
      as Hw.
    { rewrite Heq. subst w1. cbn [self_args stdin ticks trace length].
      rewrite <- app_assoc. do 2 f_equal. lia. }
    exists (job_events env (self_args w) total idx item (ticks w) ++ evs).
    split_and!.
    + destruct (run_outcome env (job_extractor (self_args w) total idx item)) as [msg|] eqn:E;
        [|done].
      destruct Hok as [->|Hs]; [done|].
      simpl in Hs. apply Forall_cons in Hs as [Hs _]. congruence.
    + rewrite runs_app, runs_job_events, Hruns. done.
    + intros k it msg Hk Hout. apply elem_of_app. destruct k as [|k].
      * injection Hk as <-. rewrite Nat.add_0_r in Hout. left.
        by apply failed_in_job_events.
      * right. apply (Hfail k it msg); [done|].
        subst w1. cbn [self_args]. by rewrite Nat.add_succ_comm.
Qed.

Lemma job_extractors_app base total idx l1 l2 :
  job_extractors base total idx (l1 ++ l2)
  = job_extractors base total idx l1 ++ job_extractors base total (idx + length l1) l2.
Proof.
  revert idx. induction l1 as [|x l1 IH]; intros idx; simpl.
  - by rewrite Nat.add_0_r.
  - by rewrite IH, Nat.add_succ_comm.
Qed.

Lemma job_loop_plain_abort env total pre : ∀ idx w item post msg,
  Forall (λ j, j ≠ "") (pre ++ item :: post) →
  continue_on_error (self_args w) = false →
  Forall (λ e, run_outcome env e = None) (job_extractors (self_args w) total idx pre) →
  run_outcome env (job_extractor (self_args w) total (idx + length pre) item) = Some msg →
  ∃ evs,
    job_loop env total idx (pre ++ item :: post) w
    = (Raise (RunError msg),
       mkWorld (self_args w) (stdin w) (ticks w + 2 * S (length pre)) (trace w ++ evs))
    ∧ runs evs = job_extractors (self_args w) total idx (pre ++ [item])
    ∧ EPrint (failed_line env item (RunError msg)) ∈ evs.
Proof.
  induction pre as [|x pre IH]; intros idx w item post msg Hne Hcoe Hpre Hitem.
  - change ([] ++ item :: post) with (item :: post) in *.
    apply Forall_cons in Hne as [Hi _].
    rewrite job_loop_cons_plain by done. cbn zeta.
    cbn [length] in Hitem. rewrite Nat.add_0_r in Hitem. rewrite Hitem, Hcoe.
    exists (job_events env (self_args w) total idx item (ticks w)). split_and!.
    + cbn [length]. do 2 f_equal. lia.
    + apply runs_job_events.
    + by apply failed_in_job_events.
  - simpl in Hne, Hpre. apply Forall_cons in Hne as [Hx Hne].
    apply Forall_cons in Hpre as [Hxs Hpre].
    change ((x :: pre) ++ item :: post) with (x :: (pre ++ item :: post)).
    rewrite job_loop_cons_plain by done. cbn zeta. rewrite Hxs.
    set (w1 := mkWorld _ _ _ _).
    destruct (IH (S idx) w1 item post msg Hne Hcoe Hpre) as (evs & Heq & Hruns & Hfail).
    { subst w1. cbn [self_args]. rewrite Nat.add_succ_comm. exact Hitem. }
    exists (job_events env (self_args w) total idx x (ticks w) ++ evs). split_and!.
    + rewrite Heq. subst w1. cbn [self_args stdin ticks trace length].
      rewrite <- app_assoc. do 2 f_equal. lia.
    + rewrite runs_app, runs_job_events, Hruns. done.
    + apply elem_of_app. by right.
Qed.

(** ** The whole run *)

Lemma build_jobs_state env w : (build_jobs env w).2 = w.
Proof.
  rewrite build_jobs_eq.
  destruct (links_file_given _) as [p|]; [destruct (read_text env p)|]; done.
Qed.

Lemma build_jobs_args env w w0 :
  self_args w = self_args w0 → (build_jobs env w).1 = (build_jobs env w0).1.
Proof.
  intros H. rewrite !build_jobs_eq, H.
  destruct (links_file_given _) as [p|]; [destruct (read_text env p)|]; done.
Qed.

(** The world in which [Main] runs its job loop. *)
Lemma main_with_jobs env w jobs :
  (build_jobs env w).1 = Ok jobs → jobs ≠ [] →
  main env w =
    match job_loop env (length jobs) 1 jobs
            (mkWorld (self_args w) (stdin w) (S (ticks w))
               (trace w ++ [EMkdir (output_dir (self_args w))])) with
    | (Ok _, w1) =>
        (Ok tt, mkWorld (self_args w1) (stdin w1) (S (ticks w1))
                  (trace w1 ++ [EPrint (took_line (clock env (ticks w1) - clock env (ticks w)))]))
    | (Raise e, w1) => (Raise e, w1)
    | (OutOfFuel, w1) => (OutOfFuel, w1)
    end.
Proof.
  intros Hb Hne. unfold main, Main.
  unfold bind at 1. unfold time at 1.
  unfold bind at 1. unfold bind at 1. unfold get_self_args at 1.
  unfold bind at 1. unfold emit at 1. cbn [self_args stdin ticks trace].
  unfold bind at 1.
  set (w0 := mkWorld _ _ _ _).
  pose proof (build_jobs_state env w0) as Hs.
  pose proof (build_jobs_args env w0 w eq_refl) as Ha.
  destruct (build_jobs env w0) as [r w0']. simpl in Hs, Ha. subst w0'.
  rewrite Hb in Ha. subst r.
  destruct jobs as [|j jobs]; [done|].
  destruct (job_loop env (length (j :: jobs)) 1 (j :: jobs) w0) as [[[]|e|] w1]; done.
Qed.

(** X16. In a run with no empty item whose jobs are [pre], [item], [post]
    in this order, where the strategy of [item] raises [msg]: with
    continue-on-error set the run ends normally and the strategies of all
    the jobs have been run, in order; with it unset, and the jobs before
    [item] completing, the run ends with the error and the strategies run
    are those of [pre] and [item] only. *)
Theorem plain_run_strategies env (w : World) (pre post : list string) (item msg : string) :
  let base := self_args w in
  let jobs := pre ++ item :: post in
  let total := length jobs in
  (build_jobs env w).1 = Ok jobs →
  Forall (λ j, j ≠ "") jobs →
  run_outcome env (job_extractor base total (1 + length pre) item) = Some msg →
  ∃ r w',
    main env w = (r, w')
    ∧ (continue_on_error base = true →
         r = Ok tt
         ∧ runs (trace w') = runs (trace w) ++ job_extractors base total 1 jobs)
    ∧ (continue_on_error base = false →
         Forall (λ e, run_outcome env e = None) (job_extractors base total 1 pre) →
         r = Raise (RunError msg)
         ∧ runs (trace w') = runs (trace w) ++ job_extractors base total 1 (pre ++ [item])).
Proof.
  intros base jobs total Hb Hne Hfail.
  assert (jobs ≠ []) as Hnil by (subst jobs; by destruct pre).
  rewrite (main_with_jobs env w jobs Hb Hnil).
  set (w0 := mkWorld _ _ _ _). fold total.
  destruct (continue_on_error base) eqn:Hcoe.
  - destruct (job_loop_plain_all env total jobs 1 w0 Hne) as (evs & Heq & Hruns & Hf);
      [by left|].
    rewrite Heq. eexists _, _. split; [done|]. cbn [trace self_args].
    split; [|done]. intros _. split; [done|].
    subst w0. cbn [trace self_args] in *.
    rewrite !runs_app, Hruns. simpl. by rewrite !app_nil_r.
  - destruct (decide (Forall (λ e, run_outcome env e = None) (job_extractors base total 1 pre)))
      as [Hpre|Hpre].
    + destruct (job_loop_plain_abort env total pre 1 w0 item post msg Hne Hcoe Hpre Hfail)
        as (evs & Heq & Hruns & Hf).
      fold jobs in Heq. rewrite Heq. eexists _, _. split; [done|]. cbn [trace self_args].
      split; [done|]. intros _ _. split; [done|].
      subst w0. cbn [trace self_args] in *.
      rewrite !runs_app, Hruns. simpl. by rewrite !app_nil_r.
    + destruct (job_loop env total 1 jobs w0) as [[[]|e|] w1];
        eexists _, _; (split; [done|]); (split; [done|]); intros _ H; done.
Qed.

(** ** The interactive session *)

Lemma input_loop_frame env lines : ∀ items w,
  ∃ r w',
    input_loop env lines items w = (r, w')
    ∧ self_args w' = self_args w
    ∧ r ≠ OutOfFuel
    ∧ (∀ its, r = Ok its → Forall (λ j, j ≠ "") items → Forall (λ j, j ≠ "") its).
Proof.
  induction lines as [|l rest IH]; intros items w; cbn [input_loop].
  - eexists _, _. split_and!; done.
  - destruct (PyStr.truthy (PyStr.strip l)) eqn:E.
    + set (w1 := mkWorld _ _ _ _).
      destruct (IH (items ++ [PyStr.strip l]) w1) as (r & w' & Heq & Hs & Hr & Hits).
      exists r, w'. split_and!; try done.
      intros its Hok Hall. apply Hits; [done|].
      apply Forall_app. split; [done|]. constructor; [|done]. by apply truthy_spec.
    + eexists _, _. split_and!; try done. by intros its [= <-].
Qed.

Lemma input_loop_blank env good : ∀ blank rest items w,
  Forall (λ l, PyStr.strip l ≠ "") good → PyStr.strip blank = "" →
  input_loop env (good ++ blank :: rest) items w
  = (Ok (items ++ (PyStr.strip <$> good)),
     mkWorld (self_args w) rest (ticks w)
       (trace w ++ replicate (S (length good)) (EPrompt (prompt env)))).
Proof.
  induction good as [|l good IH]; intros blank rest items w Hgood Hblank.
  - cbn [app input_loop]. rewrite Hblank. simpl. by rewrite app_nil_r.
  - apply Forall_cons in Hgood as [Hl Hgood].
    change ((l :: good) ++ blank :: rest) with (l :: (good ++ blank :: rest)).
    cbn [input_loop]. apply truthy_spec in Hl. rewrite Hl.
    rewrite IH by done. cbn [self_args stdin ticks trace].
    rewrite fmap_cons, <- !app_assoc. done.
Qed.

Lemma until_failure_cons env e rest :
  until_failure env (e :: rest) =
    match run_outcome env e with
    | Some msg => ([e], Some msg)
    | None => (e :: (until_failure env rest).1, (until_failure env rest).2)
    end.
Proof. simpl. destruct (run_outcome env e); [done|]. by destruct (until_failure env rest). Qed.

(** The nested batch on items that are not empty: the strategies of the
    items are run in order up to the first that raises, whose error ends
    the batch, and nothing else is observed. *)
Lemma nested_batch_spec env d n items : ∀ i w,
  Forall (λ j, j ≠ "") items →
  nested_batch env (get_extractor_rec env (S d)) n i items w
  = (match (until_failure env (job_extractors (self_args w) n i items)).2 with
     | Some msg => Raise (RunError msg)
     | None => Ok tt
     end,
     mkWorld (self_args w) (stdin w) (ticks w)
       (trace w ++ (ERun <$> (until_failure env (job_extractors (self_args w) n i items)).1))).
Proof.
  induction items as [|it rest IH]; intros i w Hne.
  - destruct w. simpl. by rewrite app_nil_r.
  - apply Forall_cons in Hne as [Hi Hrest].
    cbn [nested_batch job_extractors]. rewrite until_failure_cons.
    unfold bind at 1. unfold get_self_args at 1.
    unfold bind at 1. rewrite get_extractor_rec_plain by by apply materialize_truthy.
    fold (job_extractor (self_args w) n i it).
    unfold bind at 1. unfold run, bind at 1, emit at 1.
    destruct (run_outcome env (job_extractor (self_args w) n i it)) as [msg|].
    + done.
    + unfold ret at 1. rewrite IH by done. cbn [self_args stdin ticks trace fst snd].
      rewrite fmap_cons, <- app_assoc. done.
Qed.

(** [get_extractor] on a job with no link and no file name. *)
Lemma get_extractor_session env d (args : JobArgs) w :
  link_truthy (link args) = false → filename args = "" →
  get_extractor_rec env (S d) args w =
    match input_loop env (stdin w) []
            (mkWorld (self_args w) (stdin w) (ticks w)
               (trace w ++ [EClear; EPrint (banner_line env); EPrint (paste_line)])) with
    | (Ok items, w1) =>
        if 1 <? length items then
          match nested_batch env (get_extractor_rec env d) (length items) 1 items
                  (mkWorld (set_link [] (self_args w1)) (stdin w1) (ticks w1) (trace w1)) with
          | (Ok _, w2) => (Ok (GeneralExtractor args), w2)
          | (Raise e, w2) => (Raise e, w2)
          | (OutOfFuel, w2) => (OutOfFuel, w2)
          end
        else
          let ans := match items with it :: _ => it | [] => "" end in
          (Ok (if is_url ans
               then existing_behaviors (set_link (Some ans) args)
               else HianimeExtractor args (Some ans)), w1)
    | (Raise e, w1) => (Raise e, w1)
    | (OutOfFuel, w1) => (OutOfFuel, w1)
    end.
Proof.
  intros Hl Hf. cbn [get_extractor_rec]. rewrite Hl, Hf. cbn [negb andb PyStr.truthy].
  unfold bind at 1. unfold emit at 1.
  unfold bind at 1. unfold print at 1, emit at 1.
  unfold bind at 1. unfold print at 1, emit at 1.
  cbn [self_args stdin ticks trace].
  unfold bind at 1. unfold read_items. cbn [self_args stdin ticks trace].
  rewrite <- !app_assoc. cbn [app].
  destruct (input_loop env (stdin w) [] _) as [[items|e|] w1]; [|done|done].
  destruct (1 <? length items).
  - unfold bind at 1. unfold get_self_args at 1.
    unfold bind at 1. unfold put_self_args at 1.
    unfold bind at 1.
    destruct (nested_batch env _ _ _ _ _) as [[[]|e|] w2]; done.
  - cbn zeta. destruct (is_url _); done.
Qed.

Lemma same_prefs_refl a : same_prefs a a.
Proof. split; [done | by left]. Qed.

Lemma same_prefs_reset a : same_prefs a (set_link [] a).
Proof. split; [done | by right]. Qed.

Lemma same_prefs_trans a b c : same_prefs a b → same_prefs b c → same_prefs a c.
Proof.
  intros [H1 H1'] [H2 H2']. split; [congruence|].
  destruct H2' as [H2'|H2']; [rewrite H2'; done | by right].
Qed.

Lemma same_prefs_coe a b : same_prefs a b → continue_on_error b = continue_on_error a.
Proof.
  intros [H _]. change (continue_on_error (set_link tt b) = continue_on_error (set_link tt a)).
  by rewrite H.
Qed.

Lemma same_prefs_cases a b : same_prefs a b ↔ b = a ∨ b = set_link [] a.
Proof.
  split.
  - intros [H H']. destruct a, b. unfold set_link in *. simpl in *.
    injection H as -> -> -> -> -> -> ->. destruct H' as [->| ->]; auto.
  - intros [->| ->]; [apply same_prefs_refl | apply same_prefs_reset].
Qed.

(** The router never runs out of depth, and leaves every preference of
    [self.args] as it was, except that it may reset the links. *)
Lemma get_extractor_frame env (args : JobArgs) w :
  ∃ r w',
    get_extractor env args w = (r, w')
    ∧ r ≠ OutOfFuel
    ∧ same_prefs (self_args w) (self_args w').
Proof.
  unfold get_extractor.
  destruct (link_truthy (link args) || PyStr.truthy (filename args)) eqn:E.
  - rewrite get_extractor_rec_plain by done. eexists _, _.
    split_and!; [done|done|apply same_prefs_refl].
  - apply orb_false_iff in E as [Hl Hf%truthy_false_spec].
    rewrite get_extractor_session by done.
    set (w0 := mkWorld _ _ _ _).
    destruct (input_loop_frame env (stdin w) [] w0) as (r & w1 & Heq & Hs & Hr & Hits).
    rewrite Heq. destruct r as [items|e|]; [|by eexists _, _; split_and!; [done|done|rewrite Hs; apply same_prefs_refl]|done].
    destruct (1 <? length items).
    + rewrite nested_batch_spec by by apply Hits.
      cbn [self_args stdin ticks trace].
      destruct (until_failure env _).2; eexists _, _;
        (split_and!; [done|done|]); cbn [self_args]; rewrite Hs; apply same_prefs_reset.
    + eexists _, _. split_and!; [done|done|]. rewrite Hs. apply same_prefs_refl.
Qed.

Lemma get_extractor_depth env d (args : JobArgs) w :
  get_extractor_rec env (S (S d)) args w = get_extractor env args w.
Proof.
  unfold get_extractor.
  destruct (link_truthy (link args) || PyStr.truthy (filename args)) eqn:E.
  - by rewrite !get_extractor_rec_plain.
  - apply orb_false_iff in E as [Hl Hf%truthy_false_spec].
    rewrite !get_extractor_session by done.
    set (w0 := mkWorld _ _ _ _).
    destruct (input_loop_frame env (stdin w) [] w0) as (r & w1 & Heq & Hs & Hr & Hits).
    rewrite Heq. destruct r as [items|e|]; [|done|done].
    destruct (1 <? length items); [|done].
    by rewrite !nested_batch_spec by by apply Hits.
Qed.

(** ** The job loop in general *)

Lemma job_loop_cons env total idx item rest w :
  job_loop env total idx (item :: rest) w =
    let per_start := clock env (ticks w) in
    match
      match get_extractor env (materialize (self_args w) item idx total)
              (mkWorld (self_args w) (stdin w) (S (ticks w))
                 (trace w ++ [EPrint (processing_line env idx total item)])) with
      | (Ok e, w1) => run env e w1
      | (Raise x, w1) => (Raise x, w1)
      | (OutOfFuel, w1) => (OutOfFuel, w1)
      end
    with
    | (Ok _, w2) => job_loop env total (S idx) rest (job_end env total idx item per_start None w2)
    | (Raise x, w2) =>
        if continue_on_error (self_args w2)
        then job_loop env total (S idx) rest (job_end env total idx item per_start (Some x) w2)
        else (Raise x, job_end env total idx item per_start (Some x) w2)
    | (OutOfFuel, w2) => (OutOfFuel, w2)
    end.
Proof.
  cbn [job_loop].
  unfold bind at 1. unfold time at 1. unfold bind at 1. unfold get_self_args at 1.
  cbn [self_args stdin ticks trace].
  unfold bind at 1. unfold print at 1. unfold emit at 1.
  cbn [self_args stdin ticks trace].
  unfold bind at 1. unfold try_except_finally.
  unfold bind at 1.
  destruct (get_extractor env _ _) as [[e|x|] w1].
  - destruct (run env e w1) as [[[]|x|] w2].
    + unfold bind, time, print, emit, job_end. cbn [self_args stdin ticks trace app]. done.
    + unfold bind at 1. unfold print at 1, emit at 1. unfold bind at 1.
      unfold get_self_args at 1. cbn [self_args stdin ticks trace].
      destruct (continue_on_error (self_args w2)); cbn [negb];
        unfold raise, ret, bind, time, print, emit, job_end;
        cbn [self_args stdin ticks trace]; rewrite <- !app_assoc; done.
    + done.
  - unfold bind at 1. unfold print at 1, emit at 1. unfold bind at 1.
    unfold get_self_args at 1. cbn [self_args stdin ticks trace].
    destruct (continue_on_error (self_args w1)); cbn [negb];
      unfold raise, ret, bind, time, print, emit, job_end;
      cbn [self_args stdin ticks trace]; rewrite <- !app_assoc; done.
  - done.
Qed.

Lemma run_frame env e w :
  ∃ r, run env e w = (r, mkWorld (self_args w) (stdin w) (ticks w) (trace w ++ [ERun e]))
       ∧ r ≠ OutOfFuel.
Proof.
  unfold run, bind, emit, ret, raise.
  destruct (run_outcome env e); eexists; split; done.
Qed.

(** In every run of the job loop the router's depth suffices, the
    preferences of [self.args] are kept (the links may be reset), and with
    continue-on-error set the loop ends normally. *)
Lemma job_loop_frame env total jobs : ∀ idx w,
  ∃ r w',
    job_loop env total idx jobs w = (r, w')
    ∧ r ≠ OutOfFuel
    ∧ same_prefs (self_args w) (self_args w')
    ∧ (continue_on_error (self_args w) = true → r = Ok tt).
Proof.
  induction jobs as [|item rest IH]; intros idx w.
  - exists (Ok tt), w. split_and!; [done|done|apply same_prefs_refl|done].
  - rewrite job_loop_cons. cbn zeta.
    set (w0 := mkWorld _ _ _ _).
    destruct (get_extractor_frame env (materialize (self_args w) item idx total) w0)
      as (r1 & w1 & Heq & Hr1 & Hp1). rewrite Heq.
    assert (∀ (x : option exn) (w2 : World),
              same_prefs (self_args w) (self_args w2) →
              ∃ r w', job_loop env total (S idx) rest
                        (job_end env total idx item (clock env (ticks w)) x w2) = (r, w')
                ∧ r ≠ OutOfFuel ∧ same_prefs (self_args w) (self_args w')
                ∧ (continue_on_error (self_args w) = true → r = Ok tt)) as Hnext.
    { intros x w2 Hp2.
      destruct (IH (S idx) (job_end env total idx item (clock env (ticks w)) x w2))
        as (r & w' & Hl & Hr & Hp & Hc).
      exists r, w'. split_and!; [done|done| |].
      - eapply same_prefs_trans; [exact Hp2 | exact Hp].
      - intros Hcoe. apply Hc. cbn [job_end self_args].
        by rewrite (same_prefs_coe _ _ Hp2). }
    assert (∀ (x : exn) (w2 : World),
              same_prefs (self_args w) (self_args w2) →
              ∃ r w',
                (if continue_on_error (self_args w2)
                 then job_loop env total (S idx) rest
                        (job_end env total idx item (clock env (ticks w)) (Some x) w2)
                 else (Raise x, job_end env total idx item (clock env (ticks w)) (Some x) w2))
                = (r, w')
                ∧ r ≠ OutOfFuel ∧ same_prefs (self_args w) (self_args w')
                ∧ (continue_on_error (self_args w) = true → r = Ok tt)) as Hfail.
    { intros x w2 Hp2. rewrite (same_prefs_coe _ _ Hp2).
      destruct (continue_on_error (self_args w)); [by apply Hnext|].
      eexists _, _. split_and!; [done|done|exact Hp2|done]. }
    destruct r1 as [e|x|]; [| by apply Hfail | done].
    destruct (run_frame env e w1) as (r2 & -> & Hr2).
    destruct r2 as [[]|x|]; [by apply Hnext | by apply Hfail | done].
Qed.

(** ** The process *)

Lemma main_build_error env w e :
  (build_jobs env w).1 = Raise e →
  main env w = (Raise e, mkWorld (self_args w) (stdin w) (S (ticks w))
                           (trace w ++ [EMkdir (output_dir (self_args w))])).
Proof.
  intros Hb. unfold main, Main.
  unfold bind at 1. unfold time at 1.
  unfold bind at 1. unfold bind at 1. unfold get_self_args at 1.
  unfold bind at 1. unfold emit at 1. cbn [self_args stdin ticks trace].
  unfold bind at 1.
  set (w0 := mkWorld _ _ _ _).
  pose proof (build_jobs_state env w0) as Hs.
  pose proof (build_jobs_args env w0 w eq_refl) as Ha.
  destruct (build_jobs env w0) as [r w0']. simpl in Hs, Ha. subst w0'.
  rewrite Hb in Ha. by subst r.
Qed.

Lemma main_no_jobs env w :
  (build_jobs env w).1 = Ok [] →
  main env w =
    (Ok tt, mkWorld (self_args w) (stdin w) (S (S (ticks w)))
              (trace w ++ [EMkdir (output_dir (self_args w)); EPrint (nothing_line env);
                           EPrint (took_line (clock env (S (ticks w)) - clock env (ticks w)))])).
Proof.
  intros Hb. unfold main, Main.
  unfold bind at 1. unfold time at 1.
  unfold bind at 1. unfold bind at 1. unfold get_self_args at 1.
  unfold bind at 1. unfold emit at 1. cbn [self_args stdin ticks trace].
  unfold bind at 1.
  set (w0 := mkWorld _ _ _ _).
  pose proof (build_jobs_state env w0) as Hs.
  pose proof (build_jobs_args env w0 w eq_refl) as Ha.
  destruct (build_jobs env w0) as [r w0']. simpl in Hs, Ha. subst w0'.
  rewrite Hb in Ha. subst r. subst w0.
  unfold print, emit, bind, time. cbn [self_args stdin ticks trace].
  by rewrite <- !app_assoc.
Qed.

Lemma build_jobs_result env w :
  (∃ jobs, (build_jobs env w).1 = Ok jobs) ∨ (∃ e, (build_jobs env w).1 = Raise e).
Proof.
  rewrite build_jobs_eq.
  destruct (links_file_given _) as [p|]; [destruct (read_text env p)|]; eauto.
Qed.

Lemma file_items_nonempty text : Forall (λ j, j ≠ "") (file_items text).
Proof.
  apply Forall_forall. intros x. unfold file_items.
  rewrite file_lines_filter, list_elem_of_filter. by intros [[? _] _].
Qed.

Lemma build_jobs_nonempty env w jobs :
  (build_jobs env w).1 = Ok jobs →
  "" ∉ link (self_args w) →
  Forall (λ j, j ≠ "") jobs.
Proof.
  rewrite build_jobs_eq. intros Hb Hl.
  assert (Forall (λ j, j ≠ "") (link (self_args w))) as Hlink.
  { apply Forall_forall. by intros x Hx ->. }
  pose proof file_items_nonempty as Hfile.
  apply Forall_forall. intros x Hx.
  destruct (links_file_given _) as [p|]; [destruct (read_text env p) as [text|]|];
    simpl in Hb; [|done|]; injection Hb as <-; rewrite dedupe_elem_of in Hx;
    rewrite ?elem_of_app in Hx.
  - destruct Hx as [Hx|[Hx|Hx]].
    + by eapply Forall_forall in Hlink.
    + specialize (Hfile text). by eapply Forall_forall in Hfile.
    + case_decide as Hd; [|by apply elem_of_nil in Hx].
      apply list_elem_of_singleton in Hx as ->. by destruct Hd.
  - destruct Hx as [Hx|Hx].
    + by eapply Forall_forall in Hlink.
    + case_decide as Hd; [|by apply elem_of_nil in Hx].
      apply list_elem_of_singleton in Hx as ->. by destruct Hd.
Qed.

Lemma materialize_copy base item idx total :
  set_filename "" (set_link tt (materialize base item idx total))
  = set_filename "" (set_link tt base).
Proof.
  unfold materialize. destruct (is_url item); [|done].
  simpl. by destruct (PyStr.truthy (filename base) && (1 <? total)).
Qed.

Lemma main_frame env w :
  same_prefs (self_args w) (self_args (main env w).2)
  ∧ (main env w).1 ≠ OutOfFuel
  ∧ (continue_on_error (self_args w) = true →
     (∀ e, (build_jobs env w).1 ≠ Raise e) → (main env w).1 = Ok tt).
Proof.
  destruct (build_jobs_result env w) as [[jobs Hb]|[e Hb]].
  - destruct jobs as [|j jobs].
    + rewrite main_no_jobs by done. cbn [fst snd self_args].
      split_and!; [apply same_prefs_refl|done|done].
    + rewrite (main_with_jobs env w (j :: jobs)) by done.
      set (w0 := mkWorld _ _ _ _).
      destruct (job_loop_frame env (length (j :: jobs)) (j :: jobs) 1 w0)
        as (r & w1 & Heq & Hr & Hp & Hc).
      rewrite Heq. destruct r as [[]|x|]; [| |done]; cbn [fst snd self_args];
        (split_and!; [exact Hp|done|]); [done|].
      intros Hcoe _. by specialize (Hc Hcoe).
  - rewrite (main_build_error env w e) by done. cbn [fst snd self_args].
    split_and!; [apply same_prefs_refl|done|]. intros _ H. by specialize (H e).
Qed.

Lemma plain_events_no_session evs :
  Forall plain_event evs → (EClear ∉ evs) ∧ (∀ p, EPrompt p ∉ evs).
Proof.
  intros H. rewrite Forall_forall in H.
  split; [|intros p]; intros Hin; by apply H in Hin.
Qed.

(** A run whose link options are all non-empty: its events, none of which
    belongs to an interactive session, and its final [self.args]. *)
Lemma main_plain env w :
  "" ∉ link (self_args w) →
  ∃ evs, trace (main env w).2 = trace w ++ evs
       ∧ Forall plain_event evs
       ∧ self_args (main env w).2 = self_args w.
Proof.
  intros Hl. destruct (build_jobs_result env w) as [[jobs Hb]|[e Hb]].
  - destruct jobs as [|j jobs].
    + rewrite main_no_jobs by done. cbn [fst snd self_args trace].
      eexists. split_and!; [done| |done]. repeat constructor.
    + rewrite (main_with_jobs env w (j :: jobs)) by done.
      set (w0 := mkWorld _ _ _ _).
      destruct (job_loop_plain env (length (j :: jobs)) (j :: jobs) 1 w0)
        as (r & n & evs & Heq & Hpl & Hr); [by eapply build_jobs_nonempty|].
      rewrite Heq. subst w0. cbn [self_args stdin ticks trace].
      destruct r as [[]|x|]; [| |done]; cbn [fst snd self_args trace];
        rewrite <- !app_assoc; (eexists; split_and!; [done| |done]).
      * apply Forall_cons. split; [done|]. apply Forall_app. split; [done|].
        repeat constructor.
      * apply Forall_cons. by split.
  - rewrite (main_build_error env w e) by done. cbn [fst snd self_args trace].
    eexists. split_and!; [done| |done]. repeat constructor.
Qed.

(** C5 (as amended). The per-job copy agrees with [self.args] on every
    attribute but the link and the file name. A run changes no attribute
    of [self.args] other than the links, which it leaves as they are or
    resets to the empty list (the interactive session does so when more
    than one item was pasted); a run whose link options are all non-empty
    leaves [self.args] as it is. *)
Theorem base_config_frame env (w : World) :
  let base := self_args w in
  let final := self_args (main env w).2 in
  (∀ item idx total,
     set_filename "" (set_link tt (materialize base item idx total))
     = set_filename "" (set_link tt base))
  ∧ (final = base ∨ final = set_link [] base)
  ∧ ("" ∉ link base → final = base).
Proof.
  cbn zeta. split_and!.
  - intros. apply materialize_copy.
  - apply same_prefs_cases. apply main_frame.
  - intros Hl. by destruct (main_plain env w Hl) as (evs & _ & _ & ->).
Qed.

Lemma input_loop_trace env lines : ∀ items w,
  ∃ evs, trace (input_loop env lines items w).2 = trace w ++ evs.
Proof.
  induction lines as [|l rest IH]; intros items w; cbn [input_loop].
  - by eexists.
  - destruct (PyStr.truthy (PyStr.strip l)).
    + set (w1 := mkWorld _ _ _ _).
      destruct (IH (items ++ [PyStr.strip l]) w1) as [evs ->].
      subst w1. cbn [trace]. rewrite <- app_assoc. by eexists.
    + by eexists.
Qed.

Lemma session_opens env (args : JobArgs) w :
  link_truthy (link args) = false → filename args = "" →
  ∃ evs, trace (get_extractor env args w).2 = trace w ++ EClear :: evs.
Proof.
  intros Hl Hf. unfold get_extractor. rewrite get_extractor_session by done.
  set (w0 := mkWorld _ _ _ _).
  destruct (input_loop_frame env (stdin w) [] w0) as (r & w1 & Heq & Hs & Hr & Hits).
  destruct (input_loop_trace env (stdin w) [] w0) as [evs Hevs].
  rewrite Heq in *. cbn [snd] in Hevs. subst w0. cbn [trace] in Hevs.
  rewrite <- app_assoc in Hevs. cbn [app] in Hevs.
  destruct r as [items|e|]; [|by eexists|done].
  destruct (1 <? length items); [|by eexists].
  rewrite nested_batch_spec by by apply Hits.
  cbn [self_args stdin ticks trace].
  destruct (until_failure env _).2; cbn [snd trace]; rewrite Hevs, <- app_assoc;
    by eexists.
Qed.

(** C6 (as amended). In a run whose link options are all non-empty, every
    collected item is non-empty and no job opens the interactive session:
    the screen is not cleared and nothing is prompted for. The session is
    opened by the job of an empty item, whatever the other items are. *)
Theorem session_only_for_empty_item env (w : World) :
  ("" ∉ link (self_args w) →
     ∃ evs, trace (main env w).2 = trace w ++ evs
          ∧ (EClear ∉ evs) ∧ (∀ p, EPrompt p ∉ evs))
  ∧ (∀ base idx total w0,
       ∃ evs, trace (get_extractor env (materialize base "" idx total) w0).2
              = trace w0 ++ EClear :: evs).
Proof.
  split.
  - intros Hl. destruct (main_plain env w Hl) as (evs & Heq & Hpl & _).
    exists evs. split; [done|]. by apply plain_events_no_session.
  - intros base idx total w0. by apply session_opens.
Qed.

Lemma until_failure_spec env exts :
  match (until_failure env exts).2 with
  | None =>
      (until_failure env exts).1 = exts ∧ Forall (λ e, run_outcome env e = None) exts
  | Some msg =>
      ∃ pre e post, exts = pre ++ e :: post
        ∧ Forall (λ e, run_outcome env e = None) pre
        ∧ run_outcome env e = Some msg
        ∧ (until_failure env exts).1 = pre ++ [e]
  end.
Proof.
  induction exts as [|e exts IH]; [done|].
  rewrite until_failure_cons. destruct (run_outcome env e) as [msg|] eqn:E; cbn [fst snd].
  - by exists [], e, exts.
  - destruct (until_failure env exts).2 as [msg|].
    + destruct IH as (pre & e' & post & -> & Hpre & He' & ->).
      exists (e :: pre), e', post. split_and!; try done. by constructor.
    + destruct IH as [-> Hall]. split; [done | by constructor].
Qed.

(** X17. An interactive session in which more than one item is
    pasted resets the links of [self.args], makes each item into a job as
    the job loop does (with the number of pasted items as batch size), and
    runs the strategies of the items in the order pasted, duplicates
    included, up to the first that raises. That error ends the session's
    batch, whatever continue-on-error says; with no error the general
    strategy of the enclosing job is returned. Nothing is printed and no
    time is taken for the items. *)
Theorem nested_batch_behaviour env (args : JobArgs) (w : World)
    (good : list string) (blank : string) (rest : list string) :
  link_truthy (link args) = false → filename args = "" →
  stdin w = good ++ blank :: rest →
  Forall (λ l, PyStr.strip l ≠ "") good → PyStr.strip blank = "" →
  1 < length good →
  let items := PyStr.strip <$> good in
  let base := set_link [] (self_args w) in
  let exts := job_extractors base (length items) 1 items in
  get_extractor env args w =
    (match (until_failure env exts).2 with
     | Some msg => Raise (RunError msg)
     | None => Ok (GeneralExtractor args)
     end,
     mkWorld base rest (ticks w)
       (trace w ++ [EClear; EPrint (banner_line env); EPrint paste_line]
        ++ replicate (S (length good)) (EPrompt (prompt env))
        ++ (ERun <$> (until_failure env exts).1))).
Proof.
  intros Hl Hf Hin Hgood Hblank Hlen. cbn zeta.
  unfold get_extractor. rewrite get_extractor_session by done.
  rewrite Hin, input_loop_blank by done. cbn [app].
  rewrite length_fmap. apply Nat.ltb_lt in Hlen. rewrite Hlen.
  rewrite nested_batch_spec.
  - cbn [self_args stdin ticks trace]. rewrite <- !app_assoc.
    by destruct (until_failure env _).2.
  - apply Forall_fmap. by eapply Forall_impl.
Qed.

(** ** Total elapsed time *)






(** ** The policy of the job loop, in any run *)

Lemma failed_line_text env item e :
  Substring ("Failed: " +:+ item +:+ nl +:+ "  -> " +:+ exn_str e) (failed_line env item e).
Proof.
  exists (RED (Fore env)), (RESET (Fore env)). unfold failed_line.
  by rewrite !append_assoc.
Qed.







(** ** Runs that the specification's sentences do not describe *)

(** Against C5 as stated: an empty link option opens the session, and the
    session, given two items, resets the links of [self.args]. *)
Lemma base_config_mutated_by_session :
  self_args (main (test_env []) (initial (test_args [""] "" false) ["a"; "b"; ""])).2
  ≠ self_args (initial (test_args [""] "" false) ["a"; "b"; ""]).
Proof. intros H. vm_compute in H. discriminate H. Qed.

(** Against C6 as stated: the collector yields one item, the empty link,
    and the job of that item opens the interactive session. *)
Lemma session_with_item_collected :
  (build_jobs (test_env []) (initial (test_args [""] "" false) [])).1 = Ok [""]
  ∧ EClear ∈ trace (main (test_env []) (initial (test_args [""] "" false) [])).2.
Proof. split; [by vm_compute|]. vm_compute. repeat constructor. Qed.

(** C7, the code where it departs from the claim: pasted twice, an item
    is run twice by the session and once by the job loop; and with
    continue-on-error set, the session stops at the pasted item that fails
    where the job loop goes on to the next item. *)
Lemma nested_batch_differs_from_job_loop :
  runs (trace (get_extractor (test_env []) empty_job
                 (initial (test_args [""] "" false) ["a"; "a"; ""])).2)
  ≠ runs (trace (main (test_env []) (initial (test_args ["a"; "a"] "" false) [])).2)
  ∧ runs (trace (get_extractor (test_env ["a"]) empty_job
                   (initial (test_args [""] "" true) ["a"; "b"; ""])).2)
    ≠ runs (trace (main (test_env ["a"]) (initial (test_args ["a"; "b"] "" true) [])).2).
Proof. split; intros H; vm_compute in H; discriminate H. Qed.


(** ** The theorems at concrete runs *)

Lemma plain_run_strategies_witness :
  ∃ w', main (test_env ["http://b"])
          (initial (test_args ["http://a"; "http://b"; "http://c"] "" true) [])
        = (Ok tt, w').
Proof.
  destruct (plain_run_strategies (test_env ["http://b"])
              (initial (test_args ["http://a"; "http://b"; "http://c"] "" true) [])
              ["http://a"] ["http://c"] "http://b" "boom") as (r & w' & Hm & Ht & _).
  - by vm_compute.
  - repeat constructor; done.
  - by vm_compute.
  - exists w'. destruct Ht as [-> _]; [reflexivity | exact Hm].
Defined.


Lemma get_extractor_routes_witness :
  ∃ e, get_extractor (test_env [])
         (set_link (Some "https://www.instagram.com/p/1") (test_args [] "" false))
         (initial (test_args [] "" false) [])
       = (Ok e, initial (test_args [] "" false) [])
     ∧ e = InstagramExtractor
             (set_link (Some "https://www.instagram.com/p/1") (test_args [] "" false)).
Proof.
  destruct (get_extractor_routes (test_env [])
              (set_link (Some "https://www.instagram.com/p/1") (test_args [] "" false))
              (initial (test_args [] "" false) [])) as (e & He & _ & Hl).
  - left. eexists. split; [reflexivity | done].
  - exists e. split; [exact He|].
    destruct (Hl _ eq_refl) as (_ & Hi & _); [done|].
    apply Hi.
    + rewrite <- contains_spec. by vm_compute.
    + rewrite <- contains_spec. by vm_compute.
Defined.

Lemma materialize_spec_witness :
  link (materialize (test_args [] "x" false) "HTTPS://a.com" 2 3) = Some "HTTPS://a.com"
  ∧ filename (materialize (test_args [] "x" false) "HTTPS://a.com" 2 3) = "x_002".
Proof.
  destruct (materialize_spec (test_args [] "x" false) "HTTPS://a.com" 2 3) as (Hurl & _ & _).
  destruct Hurl as (Hlink & Hname & _).
  - apply is_url_spec. by vm_compute.
  - split; [exact Hlink|]. rewrite Hname; [by vm_compute|]. split; [done | lia].
Defined.

Lemma base_config_frame_witness :
  self_args (main (test_env []) (initial (test_args ["http://a"] "x" false) [])).2
  = test_args ["http://a"] "x" false.
Proof.
  destruct (base_config_frame (test_env []) (initial (test_args ["http://a"] "x" false) []))
    as (_ & _ & H).
  apply H. simpl. apply not_elem_of_cons. split; [done | apply not_elem_of_nil].
Defined.

Lemma session_only_for_empty_item_witness :
  ∃ evs, trace (main (test_env []) (initial (test_args ["http://a"] "x" false) [])).2
         = trace (initial (test_args ["http://a"] "x" false) []) ++ evs
       ∧ (EClear ∉ evs) ∧ (∀ p, EPrompt p ∉ evs).
Proof.
  apply (proj1 (session_only_for_empty_item (test_env [])
                  (initial (test_args ["http://a"] "x" false) []))).
  simpl. apply not_elem_of_cons. split; [done | apply not_elem_of_nil].
Defined.

Lemma nested_batch_behaviour_witness :
  (get_extractor (test_env []) empty_job
     (initial (test_args [""] "x" true) ["http://a"; " b "; ""; "later"])).1
  = Ok (GeneralExtractor empty_job).
Proof.
  rewrite (nested_batch_behaviour (test_env []) empty_job
             (initial (test_args [""] "x" true) ["http://a"; " b "; ""; "later"])
             ["http://a"; " b "] "" ["later"]).
  - by vm_compute.
  - reflexivity.
  - reflexivity.
  - reflexivity.
  - repeat constructor; by vm_compute.
  - reflexivity.
  - simpl. lia.
Defined.


Lemma build_jobs_links_file_witness :
  (build_jobs file_env (initial file_args [])).1 = Ok ["http://a.com"; "foo"].
Proof.
  destruct (build_jobs_links_file file_env (initial file_args []) "links.txt")
    as (_ & Hfile & _); [reflexivity | done |].
  destruct (Hfile example_file) as [_ ->]; [reflexivity|]. by vm_compute.
Defined.

Lemma file_lines_stripped_witness : NoOuterSpace "foo" ∧ "foo" ≠ "".
Proof.
  destruct (file_lines_stripped ["  foo  "; "   "; "  # c"]) as (_ & H & _).
  apply H. vm_compute. repeat constructor.
Defined.

(** ** The examples of the specification *)

Example classification_link : is_url "HTTPS://a.com" = true.
Proof. reflexivity. Qed.

Example classification_search_term : is_url "naruto" = false.
Proof. reflexivity. Qed.

Example batch_filenames :
  (λ i, filename (materialize (test_args [] "x" false) "http://a" i 3)) <$> [1; 2; 3]
  = ["x_001"; "x_002"; "x_003"]
  ∧ filename (materialize (test_args [] "x" false) "http://a" 1 1) = "x".
Proof. split; by vm_compute. Qed.

Example three_jobs_abort :
  (main (test_env ["http://b"])
     (initial (test_args ["http://a"; "http://b"; "http://c"] "" false) [])).1
  = Raise (RunError "boom")
  ∧ target <$> runs (trace (main (test_env ["http://b"])
       (initial (test_args ["http://a"; "http://b"; "http://c"] "" false) [])).2)
    = ["http://a"; "http://b"].
Proof. split; by vm_compute. Qed.

Example three_jobs_continue :
  (main (test_env ["http://b"])
     (initial (test_args ["http://a"; "http://b"; "http://c"] "" true) [])).1
  = Ok tt
  ∧ target <$> runs (trace (main (test_env ["http://b"])
       (initial (test_args ["http://a"; "http://b"; "http://c"] "" true) [])).2)
    = ["http://a"; "http://b"; "http://c"].
Proof. split; by vm_compute. Qed.

Example empty_input_no_op :
  main (test_env []) (initial (test_args [] "" false) [])
  = (Ok tt, mkWorld (test_args [] "" false) [] 2
              [EMkdir "output";
               EPrint "No links/search terms provided. Nothing to do.";
               EPrint "Took 0:00 to finish"]).
Proof. by vm_compute. Qed.

Example lower_example : PyStr.lower "HTTPS://A.com" = "https://a.com".
Proof. reflexivity. Qed.

Example splitlines_crlf :
  PyStr.splitlines ("a" +:+ String (ascii_of_nat 13) nl +:+ "b" +:+ nl) = ["a"; "b"].
Proof. reflexivity. Qed.

Example splitlines_blank_lines :
  PyStr.splitlines (nl +:+ nl +:+ "x") = [""; ""; "x"].
Proof. reflexivity. Qed.

Example strip_example : PyStr.strip "  # a b  " = "# a b".
Proof. reflexivity. Qed.

Example format_examples :
  PyStr.format_0d 3 7 = "007" ∧ PyStr.format_0d 3 1234 = "1234"
  ∧ PyStr.format_0d 3 (-5) = "-05" ∧ PyStr.format_0d_nat 3 12 = "012".
Proof. by vm_compute. Qed.

(** ** Further properties of the program *)

Lemma dedupe_nil_inv l : dedupe l = [] → l = [].
Proof.
  intros H. destruct l as [|x l]; [done|].
  assert (x ∈ dedupe (x :: l)) as Hx by (apply dedupe_elem_of; left).
  rewrite H in Hx. by apply elem_of_nil in Hx.
Qed.

(** X1. The collector yields no item exactly when there is no link option,
    no file name, and no links file or one with no line to keep; [Main]
    then makes the output directory, prints that there is nothing to do
    and returns, and the process prints the total time: no job is
    started and no strategy is run. *)
Theorem nothing_to_do env (w : World) :
  let args := self_args w in
  let empty_input :=
    link args = [] ∧ filename args = ""
    ∧ match links_file_given (links_file args) with
      | None => True
      | Some p => ∃ text, read_text env p = Some text ∧ file_items text = []
      end in
  ((build_jobs env w).1 = Ok [] ↔ empty_input)
  ∧ (empty_input →
     main env w
     = (Ok tt, mkWorld args (stdin w) (S (S (ticks w)))
                 (trace w ++ [EMkdir (output_dir args); EPrint (nothing_line env);
                              EPrint (took_line (clock env (S (ticks w)) - clock env (ticks w)))]))).
Proof.
  cbn zeta.
  assert ((build_jobs env w).1 = Ok [] ↔
          link (self_args w) = [] ∧ filename (self_args w) = ""
          ∧ match links_file_given (links_file (self_args w)) with
            | None => True
            | Some p => ∃ text, read_text env p = Some text ∧ file_items text = []
            end) as Hiff.
  { rewrite build_jobs_eq.
    destruct (links_file_given _) as [p|]; [destruct (read_text env p) as [text|]|];
      cbn [fst].
    - split.
      + intros [= H%dedupe_nil_inv].
        apply app_eq_nil in H as [Hl H]. apply app_eq_nil in H as [Hf H].
        rewrite Hl, Hf in H. cbn [app] in H.
        destruct (decide ([] = [] ∧ filename (self_args w) ≠ "")) as [Hd|Hd]; [done|].
        split_and!; [done| |by exists text].
        destruct (decide (filename (self_args w) = "")); [done|]. by destruct Hd.
      + intros (Hl & Hn & text' & [= <-] & Hf). rewrite Hl, Hf, Hn. cbn [app].
        by rewrite decide_False by (by intros [_ ?]).
    - split; [done|]. by intros (_ & _ & text & ? & _).
    - split.
      + intros [= H%dedupe_nil_inv]. apply app_eq_nil in H as [Hl H].
        rewrite Hl in H.
        destruct (decide ([] = [] ∧ filename (self_args w) ≠ "")) as [Hd|Hd]; [done|].
        split_and!; [done| |done].
        destruct (decide (filename (self_args w) = "")); [done|]. by destruct Hd.
      + intros (Hl & Hn & _). rewrite Hl, Hn. cbn [app].
        by rewrite decide_False by (by intros [_ ?]). }
  split; [exact Hiff|]. intros H. apply main_no_jobs. by apply Hiff.
Qed.

Lemma nothing_to_do_witness :
  (main (test_env []) (initial (test_args [] "" false) ["ignored"])).1 = Ok tt.
Proof.
  rewrite (proj2 (nothing_to_do (test_env []) (initial (test_args [] "" false) ["ignored"]))).
  - reflexivity.
  - simpl. done.
Defined.

Lemma job_loop_single_plain env total idx item w :
  item ≠ "" →
  ∃ r, job_loop env total idx [item] w
       = (r, mkWorld (self_args w) (stdin w) (S (S (ticks w)))
               (trace w ++ job_events env (self_args w) total idx item (ticks w)))
     ∧ r ≠ OutOfFuel.
Proof.
  intros Hne. rewrite job_loop_cons_plain by done. cbn zeta.
  destruct (run_outcome env _) as [msg|]; [destruct (continue_on_error _)|];
    eexists; split; done.
Qed.

(** X2. A file name given with no link option and no links file is the
    only item of the run: one job is made from it, and exactly the
    strategy of that job is run. When the name does not read as a URL the
    strategy is the streaming site's, searching for the name, on a copy of
    [self.args] with no link. *)
Theorem bare_filename_is_one_job env (w : World) (name : string) :
  let args := self_args w in
  link args = [] → links_file_given (links_file args) = None →
  filename args = name → name ≠ "" →
  (build_jobs env w).1 = Ok [name]
  ∧ runs (trace (main env w).2) = runs (trace w) ++ [job_extractor args 1 1 name]
  ∧ (is_url name = false →
     job_extractor args 1 1 name = HianimeExtractor (set_link None args) (Some name)).
Proof.
  intros args Hl Hf Hn Hne. subst args.
  assert ((build_jobs env w).1 = Ok [name]) as Hb.
  { rewrite build_jobs_eq, Hf, Hl, Hn. cbn [fst app].
    by rewrite decide_True. }
  split_and!; [done| |].
  - rewrite (main_with_jobs env w [name]) by done.
    set (w0 := mkWorld _ _ _ _).
    destruct (job_loop_single_plain env 1 1 name w0 Hne) as (r & Heq & Hr).
    cbn [length]. rewrite Heq. subst w0. cbn [self_args stdin ticks trace].
    destruct r as [[]|x|]; [| |done]; cbn [snd trace];
      rewrite !runs_app, runs_job_events; cbn; by rewrite ?app_nil_r.
  - intros Hu. unfold job_extractor, materialize. rewrite Hu.
    unfold existing_behaviors. cbn [link filename set_link set_filename link_truthy negb andb].
    apply truthy_spec in Hne. rewrite Hne. f_equal.
    rewrite <- Hn. by destruct (self_args w).
Qed.

Lemma bare_filename_is_one_job_witness :
  (build_jobs (test_env []) (initial (test_args [] "naruto" false) [])).1 = Ok ["naruto"].
Proof.
  by apply (bare_filename_is_one_job (test_env [])
              (initial (test_args [] "naruto" false) []) "naruto").
Defined.

(** X3. The job made from an item that is not empty and does not read as
    a URL always goes to the streaming site's strategy with the item as
    search term, whatever the base configuration holds. The job made from
    an item that reads as a URL goes to the strategy its own text selects:
    the streaming site's (without a search term) when it contains
    [hianime], else the social-media one when it contains
    [instagram.com], else the general one. *)
Theorem item_strategy (base : Args) (total idx : nat) (item : string) :
  let job := materialize base item idx total in
  (item ≠ "" → ¬ UrlItem item →
     job_extractor base total idx item = HianimeExtractor job (Some item))
  ∧ (UrlItem item →
     job_extractor base total idx item
     = if PyStr.contains "hianime" item then HianimeExtractor job None
       else if PyStr.contains "instagram.com" item then InstagramExtractor job
       else GeneralExtractor job).
Proof.
  cbn zeta. split.
  - intros Hne Hurl. rewrite <- is_url_spec in Hurl. apply not_true_is_false in Hurl.
    unfold job_extractor, materialize. rewrite Hurl.
    unfold existing_behaviors. cbn [link filename set_link set_filename link_truthy negb andb].
    apply truthy_spec in Hne. by rewrite Hne.
  - intros Hurl. apply is_url_spec in Hurl.
    pose proof (is_url_nonempty item Hurl) as Hne%truthy_spec.
    unfold job_extractor, materialize. rewrite Hurl.
    destruct (PyStr.truthy (filename (set_link (Some item) base)) && (1 <? total));
      unfold existing_behaviors;
      cbn [link filename set_link set_filename link_truthy negb andb default id];
      rewrite Hne; cbn [negb andb];
      by destruct (PyStr.contains "hianime" item), (PyStr.contains "instagram.com" item).
Qed.

Lemma item_strategy_witness :
  job_extractor (test_args ["http://x"] "base" false) 3 2 "one piece"
  = HianimeExtractor (materialize (test_args ["http://x"] "base" false) "one piece" 2 3)
      (Some "one piece").
Proof.
  apply (proj1 (item_strategy (test_args ["http://x"] "base" false) 3 2 "one piece")).
  - done.
  - rewrite <- is_url_spec. by vm_compute.
Defined.

Lemma job_end_last env total idx item per_start err w :
  ∃ elapsed, last (trace (job_end env total idx item per_start err w))
             = Some (EPrint (done_line env idx total elapsed)).
Proof.
  eexists. unfold job_end. cbn [trace]. by rewrite app_assoc, last_snoc.
Qed.

(** X4. The [finally] block: whenever the job loop is run on a list that
    is not empty, the last thing it prints is the completion line of one
    of its jobs, also when that job's error ends the loop; if the loop
    ends normally, it is the completion line of the last job. *)
Theorem done_line_is_last env total (jobs : list string) : ∀ idx w,
  jobs ≠ [] →
  ∃ k item elapsed,
    jobs !! k = Some item
    ∧ last (trace (job_loop env total idx jobs w).2)
      = Some (EPrint (done_line env (idx + k) total elapsed))
    ∧ ((job_loop env total idx jobs w).1 = Ok tt → S k = length jobs).
Proof.
  induction jobs as [|item rest IH]; intros idx w Hne; [done|].
  rewrite job_loop_cons. cbn zeta.
  set (w0 := mkWorld _ _ _ _). set (t0 := clock env (ticks w)).
  assert (∀ x w2,
    ∃ k it elapsed,
      (item :: rest) !! k = Some it
      ∧ last (trace (job_loop env total (S idx) rest (job_end env total idx item t0 x w2)).2)
        = Some (EPrint (done_line env (idx + k) total elapsed))
      ∧ ((job_loop env total (S idx) rest (job_end env total idx item t0 x w2)).1 = Ok tt →
         S k = length (item :: rest))) as Hnext.
  { intros x w2. destruct rest as [|item' rest'].
    - destruct (job_end_last env total idx item t0 x w2) as [elapsed He].
      exists 0, item, elapsed. rewrite Nat.add_0_r. by split_and!.
    - destruct (IH (S idx) (job_end env total idx item t0 x w2)) as (k & it & el & Hk & Hl & Ho);
        [done|].
      exists (S k), it, el. rewrite <- Nat.add_succ_comm. split_and!; [done|done|].
      intros H. cbn [length] in *. by rewrite (Ho H). }
  assert (∀ x w2,
    ∃ k it elapsed,
      (item :: rest) !! k = Some it
      ∧ last (trace (if continue_on_error (self_args w2)
                     then job_loop env total (S idx) rest (job_end env total idx item t0 (Some x) w2)
                     else (Raise x, job_end env total idx item t0 (Some x) w2)).2)
        = Some (EPrint (done_line env (idx + k) total elapsed))
      ∧ ((if continue_on_error (self_args w2)
          then job_loop env total (S idx) rest (job_end env total idx item t0 (Some x) w2)
          else (Raise x, job_end env total idx item t0 (Some x) w2)).1 = Ok tt →
         S k = length (item :: rest))) as Hfail.
  { intros x w2. destruct (continue_on_error (self_args w2)); [apply Hnext|].
    destruct (job_end_last env total idx item t0 (Some x) w2) as [elapsed He].
    exists 0, item, elapsed. rewrite Nat.add_0_r. by split_and!. }
  destruct (get_extractor_frame env (materialize (self_args w) item idx total) w0)
    as (r1 & w1 & Heq & Hr1 & _). rewrite Heq.
  destruct r1 as [e|x|]; [|apply Hfail|done].
  destruct (run_frame env e w1) as (r2 & -> & Hr2).
  destruct r2 as [[]|x|]; [apply Hnext|apply Hfail|done].
Qed.

Lemma done_line_is_last_witness :
  ∃ k item elapsed,
    ["http://a"; "http://b"] !! k = Some item
    ∧ last (trace (job_loop (test_env ["http://a"]) 2 1 ["http://a"; "http://b"]
                     (initial (test_args [] "" false) [])).2)
      = Some (EPrint (done_line (test_env ["http://a"]) (1 + k) 2 elapsed)).
Proof.
  destruct (done_line_is_last (test_env ["http://a"]) 2 ["http://a"; "http://b"] 1
              (initial (test_args [] "" false) [])) as (k & item & el & Hk & Hl & _).
  - done.
  - by exists k, item, el.
Defined.

Lemma input_loop_eof env good : ∀ items w,
  Forall (λ l, PyStr.strip l ≠ "") good →
  input_loop env good items w
  = (Raise EOFError,
     mkWorld (self_args w) [] (ticks w)
       (trace w ++ replicate (S (length good)) (EPrompt (prompt env)))).
Proof.
  induction good as [|l good IH]; intros items w Hgood.
  - done.
  - apply Forall_cons in Hgood as [Hl Hgood].
    cbn [input_loop]. apply truthy_spec in Hl. rewrite Hl.
    rewrite IH by done. cbn [self_args stdin ticks trace length replicate].
    by rewrite <- !app_assoc.
Qed.

(** X5. The session's reading loop prompts once for every line it reads.
    It returns the lines before the first blank one, stripped and in
    order, and leaves the lines after the blank one unread; when input
    ends before a blank line it raises [EOFError] and nothing is
    returned. The configuration is untouched either way. *)
Theorem read_items_until_blank env (w : World) (good : list string) :
  Forall (λ l, PyStr.strip l ≠ "") good →
  (∀ blank rest, stdin w = good ++ blank :: rest → PyStr.strip blank = "" →
     read_items env w
     = (Ok (PyStr.strip <$> good),
        mkWorld (self_args w) rest (ticks w)
          (trace w ++ replicate (S (length good)) (EPrompt (prompt env)))))
  ∧ (stdin w = good →
     read_items env w
     = (Raise EOFError,
        mkWorld (self_args w) [] (ticks w)
          (trace w ++ replicate (S (length good)) (EPrompt (prompt env))))).
Proof.
  intros Hgood. split.
  - intros blank rest Hin Hblank. unfold read_items. rewrite Hin.
    by rewrite input_loop_blank.
  - intros Hin. unfold read_items. rewrite Hin. by rewrite input_loop_eof.
Qed.

Lemma read_items_until_blank_witness :
  (read_items (test_env []) (initial (test_args [] "" false) [" a "; "b"; "  "; "c"])).1
  = Ok ["a"; "b"].
Proof.
  rewrite (proj1 (read_items_until_blank (test_env [])
                    (initial (test_args [] "" false) [" a "; "b"; "  "; "c"])
                    [" a "; "b"] ltac:(repeat constructor; by vm_compute))
             "  " ["c"]).
  - reflexivity.
  - reflexivity.
  - reflexivity.
Defined.

(** X6. A session in which at most one item is pasted runs nothing and
    leaves [self.args] as it is. It returns one strategy for the enclosing
    job: when the item reads as a URL, the strategy the router selects for
    the job with that link; otherwise the streaming site's strategy
    searching for the item, and for the empty string when nothing was
    pasted. *)
Theorem single_entry_fallback env (args : JobArgs) (w : World)
    (good : list string) (blank : string) (rest : list string) :
  link_truthy (link args) = false → filename args = "" →
  stdin w = good ++ blank :: rest →
  Forall (λ l, PyStr.strip l ≠ "") good → PyStr.strip blank = "" →
  length good ≤ 1 →
  let ans := match good with l :: _ => PyStr.strip l | [] => "" end in
  get_extractor env args w =
    (Ok (if is_url ans
         then existing_behaviors (set_link (Some ans) args)
         else HianimeExtractor args (Some ans)),
     mkWorld (self_args w) rest (ticks w)
       (trace w ++ [EClear; EPrint (banner_line env); EPrint paste_line]
        ++ replicate (S (length good)) (EPrompt (prompt env)))).
Proof.
  intros Hl Hf Hin Hgood Hblank Hlen. cbn zeta.
  unfold get_extractor. rewrite get_extractor_session by done.
  rewrite Hin, input_loop_blank by done. cbn [app].
  rewrite length_fmap.
  assert ((1 <? length good) = false) as -> by by apply Nat.ltb_ge.
  cbn zeta. cbn [self_args stdin ticks trace]. rewrite <- !app_assoc.
  by destruct good.
Qed.

Lemma single_entry_fallback_witness :
  (get_extractor (test_env []) empty_job
     (initial (test_args [""] "" false) ["https://hianime.to/w/1"; ""])).1
  = Ok (HianimeExtractor (set_link (Some "https://hianime.to/w/1") empty_job) None).
Proof.
  rewrite (single_entry_fallback (test_env []) empty_job
             (initial (test_args [""] "" false) ["https://hianime.to/w/1"; ""])
             ["https://hianime.to/w/1"] "" []).
  - by vm_compute.
  - reflexivity.
  - reflexivity.
  - reflexivity.
  - repeat constructor; by vm_compute.
  - reflexivity.
  - simpl. lia.
Defined.

(** X7. When input ends during a session before a blank line, the router
    raises [EOFError]: the items pasted so far are dropped, no strategy is
    run, and [self.args] is as it was. In the job loop this is the failure
    of the enclosing job, reported with the text [EOF when reading a
    line]. *)
Theorem session_end_of_input env (args : JobArgs) (w : World) :
  link_truthy (link args) = false → filename args = "" →
  Forall (λ l, PyStr.strip l ≠ "") (stdin w) →
  get_extractor env args w
  = (Raise EOFError,
     mkWorld (self_args w) [] (ticks w)
       (trace w ++ [EClear; EPrint (banner_line env); EPrint paste_line]
        ++ replicate (S (length (stdin w))) (EPrompt (prompt env))))
  ∧ (∀ total idx rest,
       continue_on_error (self_args w) = false →
       ∃ w', job_loop env total idx ("" :: rest) w = (Raise EOFError, w')
           ∧ runs (trace w') = runs (trace w)
           ∧ EPrint (failed_line env "" EOFError) ∈ trace w').
Proof.
  intros Hl Hf Hin.
  assert (∀ w0 : World, Forall (λ l, PyStr.strip l ≠ "") (stdin w0) →
    get_extractor env args w0
    = (Raise EOFError,
       mkWorld (self_args w0) [] (ticks w0)
         (trace w0 ++ [EClear; EPrint (banner_line env); EPrint paste_line]
          ++ replicate (S (length (stdin w0))) (EPrompt (prompt env))))) as Hget.
  { intros w0 Hin0. unfold get_extractor. rewrite get_extractor_session by done.
    rewrite input_loop_eof by done. cbn [self_args stdin ticks trace].
    by rewrite <- !app_assoc. }
  split; [by apply Hget|].
  intros total idx rest Hcoe. rewrite job_loop_cons. cbn zeta.
  assert (materialize (self_args w) "" idx total = set_filename "" (set_link None (self_args w)))
    as -> by done.
  unfold get_extractor. rewrite get_extractor_session by done.
  cbn [self_args stdin ticks trace].
  rewrite input_loop_eof by done. cbn [self_args stdin ticks trace].
  rewrite Hcoe. eexists. split; [done|]. unfold job_end. cbn [trace]. split.
  - rewrite !runs_app. cbn [app].
    assert (∀ n, runs (replicate n (EPrompt (prompt env))) = []) as Hrep.
    { induction n; [done|]. by cbn. }
    rewrite Hrep. cbn. by rewrite !app_nil_r.
  - rewrite !elem_of_app. right. left. by apply list_elem_of_singleton.
Qed.

Lemma session_end_of_input_witness :
  (get_extractor (test_env []) empty_job (initial (test_args [""] "" false) ["a"; "b"])).1
  = Raise EOFError.
Proof.
  rewrite (proj1 (session_end_of_input (test_env []) empty_job
                    (initial (test_args [""] "" false) ["a"; "b"])
                    eq_refl eq_refl ltac:(repeat constructor; by vm_compute))).
  reflexivity.
Defined.

Lemma dedupe_NoDup_id l : NoDup l → dedupe l = l.
Proof.
  induction l as [|x l IH] using rev_ind; intros Hnd; [done|].
  apply NoDup_app in Hnd as (Hl & Hx & _).
  rewrite dedupe_snoc, IH by done.
  destruct (decide (x ∈ l)) as [Hin|]; [|done].
  exfalso. apply (Hx x Hin). by apply list_elem_of_singleton.
Qed.

Lemma dedupe_app l1 l2 :
  dedupe (l1 ++ l2) = dedupe l1 ++ filter (λ x, x ∉ l1) (dedupe l2).
Proof.
  induction l2 as [|x l2 IH] using rev_ind.
  - by rewrite !app_nil_r.
  - rewrite app_assoc, !dedupe_snoc, IH.
    destruct (decide (x ∈ l2)) as [H2|H2].
    + rewrite decide_True; [done|]. apply elem_of_app. by right.
    + rewrite filter_app. destruct (decide (x ∈ l1)) as [H1|H1].
      * rewrite decide_True by (apply elem_of_app; by left).
        rewrite filter_cons_False by (intros H; by apply H).
        by rewrite filter_nil, app_nil_r.
      * rewrite decide_False by (rewrite elem_of_app; by intros [?|?]).
        rewrite filter_cons_True by done. by rewrite filter_nil, app_assoc.
Qed.

(** X8. De-duplication composes: a list without duplicates is returned as
    it is, so de-duplicating twice is de-duplicating once; and the
    de-duplication of two lists in a row is that of the first, followed by
    the items of the second's that the first does not hold. *)
Theorem dedupe_composes (l l1 l2 : list string) :
  dedupe (dedupe l) = dedupe l
  ∧ (NoDup l → dedupe l = l)
  ∧ dedupe (l1 ++ l2) = dedupe l1 ++ filter (λ x, x ∉ l1) (dedupe l2).
Proof.
  split_and!.
  - apply dedupe_NoDup_id, dedupe_NoDup.
  - apply dedupe_NoDup_id.
  - apply dedupe_app.
Qed.

Lemma dedupe_composes_witness : dedupe ["b"; "a"; "c"] = ["b"; "a"; "c"].
Proof.
  apply (dedupe_composes ["b"; "a"; "c"] [] []).
  repeat constructor; set_solver.
Defined.

(** X9. The job list of the collector has no duplicates; it starts with
    the link options, de-duplicated, in the order given; each of its items
    is a link option, a kept line of the links file, or the file name, the
    last only when there is no link option; and it holds the empty string
    only if a link option is empty. *)
Theorem build_jobs_items env (w : World) (jobs : list string) :
  let args := self_args w in
  (build_jobs env w).1 = Ok jobs →
  NoDup jobs
  ∧ dedupe (link args) `prefix_of` jobs
  ∧ (∀ x, x ∈ jobs →
       x ∈ link args
       ∨ (∃ p text, links_file_given (links_file args) = Some p
                    ∧ read_text env p = Some text ∧ x ∈ file_items text)
       ∨ (x = filename args ∧ link args = []))
  ∧ ("" ∈ jobs → "" ∈ link args).
Proof.
  intros args Hb. subst args. split_and!.
  - rewrite build_jobs_eq in Hb.
    destruct (links_file_given _) as [p|]; [destruct (read_text env p)|];
      cbn [fst] in Hb; [|done|]; injection Hb as <-; apply dedupe_NoDup.
  - rewrite build_jobs_eq in Hb.
    destruct (links_file_given _) as [p|]; [destruct (read_text env p)|];
      cbn [fst] in Hb; [|done|]; injection Hb as <-; rewrite dedupe_app;
      by apply prefix_app_r.
  - intros x Hx. rewrite build_jobs_eq in Hb.
    destruct (links_file_given _) as [p|]; [destruct (read_text env p) as [text|] eqn:E|];
      cbn [fst] in Hb; [|done|]; injection Hb as <-; rewrite dedupe_elem_of in Hx;
      rewrite ?elem_of_app in Hx.
    + destruct Hx as [Hx|[Hx|Hx]]; [by left|right; left; by exists p, text|].
      case_decide as Hd; [|by apply elem_of_nil in Hx].
      apply list_elem_of_singleton in Hx as ->. destruct Hd as [Hd _].
      apply app_eq_nil in Hd as [Hd _]. by right; right.
    + destruct Hx as [Hx|Hx]; [by left|].
      case_decide as Hd; [|by apply elem_of_nil in Hx].
      apply list_elem_of_singleton in Hx as ->. destruct Hd as [Hd _]. by right; right.
  - intros Hin. destruct (decide ("" ∈ link (self_args w))) as [|Hn]; [done|].
    pose proof (build_jobs_nonempty env w jobs Hb Hn) as Hall.
    rewrite Forall_forall in Hall. by apply Hall in Hin.
Qed.

Lemma build_jobs_items_witness :
  NoDup ["http://a.com"; "foo"].
Proof.
  apply (build_jobs_items file_env (initial file_args []) ["http://a.com"; "foo"]).
  by vm_compute.
Defined.

Lemma to_uint_nonnil n : Nat.to_uint n ≠ Decimal.Nil.
Proof.
  intros H. pose proof (DecimalNat.Unsigned.of_to n) as E.
  rewrite H in E. cbn in E. subst n. discriminate H.
Qed.

Lemma uint_of_string_zeros k s :
  NilEmpty.uint_of_string (PyStr.zeros k +:+ s)
  = Nat.iter k Decimal.D0 <$> NilEmpty.uint_of_string s.
Proof.
  induction k as [|k IH]; cbn [PyStr.zeros Nat.iter nat_rect].
  - cbn. by destruct (NilEmpty.uint_of_string s).
  - change (String "0" (PyStr.zeros k) +:+ s) with (String "0" (PyStr.zeros k +:+ s)).
    cbn [NilEmpty.uint_of_string]. rewrite IH.
    by destruct (NilEmpty.uint_of_string s).
Qed.

Lemma of_uint_zeros k d : Nat.of_uint (Nat.iter k Decimal.D0 d) = Nat.of_uint d.
Proof. induction k as [|k IH]; [done|]. cbn [Nat.iter nat_rect]. by rewrite <- IH. Qed.

Lemma decode_format_0d_nat width n :
  decode_nat (PyStr.format_0d_nat width n) = Some n.
Proof.
  unfold decode_nat, PyStr.format_0d_nat, PyStr.zfill, PyStr.str_of_nat.
  rewrite uint_of_string_zeros.
  assert (NilZero.string_of_uint (Nat.to_uint n) = NilEmpty.string_of_uint (Nat.to_uint n)) as ->.
  { pose proof (to_uint_nonnil n). by destruct (Nat.to_uint n). }
  rewrite NilEmpty.usu. cbn [fmap option_fmap option_map].
  by rewrite of_uint_zeros, DecimalNat.Unsigned.of_to.
Qed.

(** X10. The index written into a file name can be read back: the padded
    index decodes to the index. So in a batch of more than one job with a
    base file name, the jobs made from items that read as URLs at two
    different indexes have different file names. *)
Theorem batch_filenames_distinct (base : Args) (total i j : nat) (item_i item_j : string) :
  (∀ width n, decode_nat (PyStr.format_0d_nat width n) = Some n)
  ∧ (filename base ≠ "" → 1 < total → UrlItem item_i → UrlItem item_j → i ≠ j →
     filename (materialize base item_i i total)
     ≠ filename (materialize base item_j j total)).
Proof.
  split; [apply decode_format_0d_nat|].
  intros Hf%truthy_spec Ht%Nat.ltb_lt Hi%is_url_spec Hj%is_url_spec Hij.
  unfold materialize. rewrite Hi, Hj. cbn [filename set_link]. rewrite Hf, Ht.
  cbn [andb filename set_filename]. intros Heq.
  apply (inj (String.append (filename base))) in Heq.
  apply (inj (String.append "_")) in Heq.
  pose proof (decode_format_0d_nat 3 i) as Di.
  rewrite Heq, decode_format_0d_nat in Di. by injection Di.
Qed.

Lemma batch_filenames_distinct_witness :
  filename (materialize (test_args [] "x" false) "http://a" 7 12)
  ≠ filename (materialize (test_args [] "x" false) "http://b" 11 12).
Proof.
  apply (batch_filenames_distinct (test_args [] "x" false) 12 7 11 "http://a" "http://b").
  - done.
  - lia.
  - apply is_url_spec. by vm_compute.
  - apply is_url_spec. by vm_compute.
  - lia.
Defined.

(** X11. Progress in order: when no item is empty and either
    continue-on-error is set or every strategy completes, the job loop
    ends normally and its events are, job by job in the order of the list
    with indexes counted from the first: the progress line, the run of the
    job's strategy, the failure line if it raised, and the completion
    line; every job takes two clock readings, and neither standard input
    nor [self.args] changes. *)
Theorem job_loop_events env total (jobs : list string) : ∀ idx w,
  Forall (λ j, j ≠ "") jobs →
  continue_on_error (self_args w) = true
  ∨ Forall (λ e, run_outcome env e = None) (job_extractors (self_args w) total idx jobs) →
  job_loop env total idx jobs w
  = (Ok tt, mkWorld (self_args w) (stdin w) (ticks w + 2 * length jobs)
              (trace w ++ batch_events env (self_args w) total idx (ticks w) jobs)).
Proof.
  induction jobs as [|item rest IH]; intros idx w Hne Hok.
  - destruct w. cbn. by rewrite Nat.add_0_r, app_nil_r.
  - apply Forall_cons in Hne as [Hi Hrest].
    rewrite job_loop_cons_plain by done. cbn zeta.
    set (w1 := mkWorld _ _ _ _).
    assert (job_loop env total (S idx) rest w1
            = (Ok tt, mkWorld (self_args w) (stdin w) (ticks w + 2 * length (item :: rest))
                        (trace w ++ batch_events env (self_args w) total idx (ticks w)
                                      (item :: rest)))) as Hw.
    { rewrite IH; [|done|].
      - subst w1. cbn [self_args stdin ticks trace length batch_events].
        rewrite <- app_assoc. do 2 f_equal. lia.
      - destruct Hok as [Hc|Hs]; [by left | right].
        cbn [job_extractors] in Hs. by apply Forall_cons in Hs as [_ Hs]. }
    destruct (run_outcome env (job_extractor (self_args w) total idx item)) as [msg|] eqn:E;
      [|done].
    destruct Hok as [->|Hs]; [done|].
    cbn [job_extractors] in Hs. apply Forall_cons in Hs as [Hs _]. congruence.
Qed.

Lemma job_loop_events_witness :
  (job_loop (test_env ["http://b"]) 2 1 ["http://a"; "http://b"]
     (initial (test_args [] "" true) [])).1 = Ok tt.
Proof.
  rewrite (job_loop_events (test_env ["http://b"]) 2 ["http://a"; "http://b"] 1
             (initial (test_args [] "" true) [])).
  - reflexivity.
  - repeat constructor; done.
  - left. reflexivity.
Defined.

Lemma lstrip_fixed s :
  (∀ c t, s = String c t → PyStr.isspace c = false) → PyStr.lstrip s = s.
Proof. destruct s as [|c s]; [done|]. intros H. simpl. by rewrite (H c s). Qed.

Lemma rstrip_fixed s :
  (∀ t c, s = t +:+ String c "" → PyStr.isspace c = false) → PyStr.rstrip s = s.
Proof.
  induction s as [|a s IH]; [done|]. intros H. simpl.
  rewrite IH.
  - destruct s as [|b s]; [|done]. by rewrite (H "" a).
  - intros t c ->. apply (H (String a t) c). done.
Qed.

Lemma strip_fixed s : NoOuterSpace s → PyStr.strip s = s.
Proof.
  intros [H1 H2]. unfold PyStr.strip. rewrite lstrip_fixed by done.
  by apply rstrip_fixed.
Qed.

(** X12. The items taken from a links file are clean: put through the
    same reading again, line by line, they come back unchanged. *)
Theorem file_lines_idempotent (lines : list string) :
  file_lines (file_lines lines) = file_lines lines.
Proof.
  assert (∀ xs, Forall (λ x, NoOuterSpace x ∧ Kept x) xs → file_lines xs = xs) as Hfix.
  { induction xs as [|x xs IH]; [done|]. intros [[Hx Hk] Hxs]%Forall_cons.
    rewrite file_lines_cons, strip_fixed by done.
    apply keep_line_spec in Hk. rewrite Hk. by rewrite IH. }
  apply Hfix. apply Forall_forall. intros x.
  rewrite file_lines_filter, list_elem_of_filter, list_elem_of_fmap.
  intros [Hk (line & -> & _)]. split; [apply strip_no_outer_space | done].
Qed.

(** X13. No job depends on the links of [self.args]: two configurations
    that agree on everything but the links give every item the same job
    and the same strategy. In particular the session's reset of the links
    changes no job that is made afterwards. *)
Theorem jobs_ignore_links (a b : Args) (item : string) (total idx : nat) :
  set_link tt b = set_link tt a →
  materialize b item idx total = materialize a item idx total
  ∧ job_extractor b total idx item = job_extractor a total idx item.
Proof.
  intros H.
  assert (materialize b item idx total = materialize a item idx total) as Hm.
  { destruct a, b. unfold set_link in H. cbn in H.
    injection H as -> -> -> -> -> -> ->. done. }
  split; [done|]. unfold job_extractor. by rewrite Hm.
Qed.

Lemma jobs_ignore_links_witness :
  materialize (test_args ["http://b"; "c"] "x" false) "http://b" 2 3
  = materialize (test_args ["http://a"] "x" false) "http://b" 2 3.
Proof.
  by apply (jobs_ignore_links (test_args ["http://a"] "x" false)
              (test_args ["http://b"; "c"] "x" false) "http://b" 3 2).
Defined.

(** The session of more than one item, as the router runs it. *)
Lemma session_batch env (args : JobArgs) (w : World)
    (good : list string) (blank : string) (rest : list string) :
  link_truthy (link args) = false → filename args = "" →
  stdin w = good ++ blank :: rest →
  Forall (λ l, PyStr.strip l ≠ "") good → PyStr.strip blank = "" →
  1 < length good →
  get_extractor env args w =
    (match (until_failure env (job_extractors (set_link [] (self_args w))
                                 (length good) 1 (PyStr.strip <$> good))).2 with
     | Some msg => Raise (RunError msg)
     | None => Ok (GeneralExtractor args)
     end,
     mkWorld (set_link [] (self_args w)) rest (ticks w)
       (trace w ++ [EClear; EPrint (banner_line env); EPrint paste_line]
        ++ replicate (S (length good)) (EPrompt (prompt env))
        ++ (ERun <$> (until_failure env (job_extractors (set_link [] (self_args w))
                                           (length good) 1 (PyStr.strip <$> good))).1))).
Proof.
  intros Hl Hf Hin Hgood Hblank Hlen.
  unfold get_extractor. rewrite get_extractor_session by done.
  rewrite Hin, input_loop_blank by done. cbn [app].
  rewrite length_fmap. apply Nat.ltb_lt in Hlen. rewrite Hlen.
  rewrite nested_batch_spec.
  - cbn [self_args stdin ticks trace]. rewrite <- !app_assoc.
    by destruct (until_failure env _).2.
  - apply Forall_fmap. by eapply Forall_impl.
Qed.

Lemma runs_prompts text n : runs (replicate n (EPrompt text)) = [].
Proof. induction n; [done|]. by cbn. Qed.

Lemma runs_ERun (exts : list Extractor) : runs (ERun <$> exts) = exts.
Proof. induction exts as [|e exts IH]; [done|]. cbn. f_equal. exact IH. Qed.

Lemma runs_print text : runs [EPrint text] = [].
Proof. done. Qed.

Lemma runs_session_start env :
  runs [EClear; EPrint (banner_line env); EPrint paste_line] = [].
Proof. done. Qed.

(** X14. A failure inside a pasted batch is the failure of the job that
    opened the session. When a job of the loop has the empty item, more
    than one item is pasted and one of them raises: the strategies run
    are those of the pasted items up to the one that raises; a line is
    printed that reads [Failed: ], the empty item, and on the next line
    the error's message; then, with
    continue-on-error set, the loop goes on with its next job, and
    otherwise it ends with that error. *)
Theorem nested_failure_on_enclosing_job env total idx (later : list string) (w : World)
    (good : list string) (blank : string) (rest : list string) (msg : string) :
  stdin w = good ++ blank :: rest →
  Forall (λ l, PyStr.strip l ≠ "") good → PyStr.strip blank = "" →
  1 < length good →
  let exts := job_extractors (set_link [] (self_args w)) (length good) 1 (PyStr.strip <$> good) in
  (until_failure env exts).2 = Some msg →
  ∃ w1,
    job_loop env total idx ("" :: later) w
    = (if continue_on_error (self_args w)
       then job_loop env total (S idx) later w1
       else (Raise (RunError msg), w1))
    ∧ self_args w1 = set_link [] (self_args w)
    ∧ stdin w1 = rest
    ∧ runs (trace w1) = runs (trace w) ++ (until_failure env exts).1
    ∧ ∃ text, EPrint text ∈ trace w1
            ∧ Substring ("Failed: " +:+ nl +:+ "  -> " +:+ msg) text.
Proof.
  intros Hin Hgood Hblank Hlen exts Hfail. subst exts.
  rewrite job_loop_cons. cbn zeta.
  assert (materialize (self_args w) "" idx total = set_filename "" (set_link None (self_args w)))
    as -> by done.
  rewrite (session_batch env _ _ good blank rest) by done.
  cbn [self_args stdin ticks trace]. rewrite Hfail.
  cbn [self_args continue_on_error set_link].
  eexists. split; [reflexivity|]. unfold job_end. cbn [self_args stdin trace].
  split_and!; [done|done| |].
  - rewrite <- !app_assoc, !runs_app.
    rewrite !runs_print, runs_session_start, runs_prompts, runs_ERun.
    cbn [app]. by rewrite app_nil_r.
  - exists (failed_line env "" (RunError msg)). split.
    + rewrite !elem_of_app. right. left. by apply list_elem_of_singleton.
    + apply (failed_line_text env "" (RunError msg)).
Qed.

Lemma nested_failure_on_enclosing_job_witness :
  ∃ w1,
    job_loop (test_env ["a"]) 1 1 [""] (initial (test_args [""] "" false) ["a"; "b"; ""])
    = (Raise (RunError "boom"), w1).
Proof.
  destruct (nested_failure_on_enclosing_job (test_env ["a"]) 1 1 []
              (initial (test_args [""] "" false) ["a"; "b"; ""])
              ["a"; "b"] "" [] "boom") as (w1 & H & _).
  - reflexivity.
  - repeat constructor; by vm_compute.
  - reflexivity.
  - simpl. lia.
  - by vm_compute.
  - exists w1. exact H.
Defined.

(** X15. After a pasted batch in which every item completes, the job that
    opened the session is not finished: the router returns the general
    strategy for it, and the job loop runs that strategy on a job with no
    link and an empty file name, after the strategies of all the pasted
    items; its outcome is the outcome of the job. *)
Theorem general_run_after_session env total idx (later : list string) (w : World)
    (good : list string) (blank : string) (rest : list string) :
  stdin w = good ++ blank :: rest →
  Forall (λ l, PyStr.strip l ≠ "") good → PyStr.strip blank = "" →
  1 < length good →
  let exts := job_extractors (set_link [] (self_args w)) (length good) 1 (PyStr.strip <$> good) in
  let job := materialize (self_args w) "" idx total in
  (until_failure env exts).2 = None →
  link job = None ∧ filename job = ""
  ∧ ∃ w1,
      job_loop env total idx ("" :: later) w
      = match run_outcome env (GeneralExtractor job) with
        | None => job_loop env total (S idx) later w1
        | Some msg =>
            if continue_on_error (self_args w)
            then job_loop env total (S idx) later w1
            else (Raise (RunError msg), w1)
        end
      ∧ runs (trace w1) = runs (trace w) ++ exts ++ [GeneralExtractor job].
Proof.
  intros Hin Hgood Hblank Hlen exts job Hnone.
  split; [done|]. split; [done|].
  pose proof (until_failure_spec env exts) as Hspec. rewrite Hnone in Hspec.
  destruct Hspec as [Hall _].
  rewrite job_loop_cons. cbn zeta. fold job.
  rewrite (session_batch env job _ good blank rest) by done.
  cbn [self_args stdin ticks trace]. fold exts. rewrite Hnone, Hall.
  unfold run, bind, emit, ret, raise. cbn [self_args stdin ticks trace].
  destruct (run_outcome env (GeneralExtractor job)) as [msg|];
    cbn [self_args continue_on_error set_link];
    (eexists; split; [reflexivity|]); unfold job_end; cbn [trace];
    rewrite <- !app_assoc, !runs_app;
    rewrite ?runs_print, runs_session_start, runs_prompts, runs_ERun;
    cbn [app]; by rewrite ?app_nil_r.
Qed.

Lemma general_run_after_session_witness :
  link (materialize (test_args [""] "" true) "" 1 1) = None.
Proof.
  apply (general_run_after_session (test_env []) 1 1 []
           (initial (test_args [""] "" true) ["a"; "b"; ""]) ["a"; "b"] "" []).
  - reflexivity.
  - repeat constructor; by vm_compute.
  - reflexivity.
  - simpl. lia.
  - by vm_compute.
Defined.
